(** * chatkit-starter: the session route and the chat panel

    A shallow embedding of
    - [src/app/api/create-session/route.ts] (module [Route]),
    - the second copy of that route, [src/unnamed/part_000] (module [RouteAlt]),
    - the ChatKit panel component, [src/unnamed/part_003] (module [Panel]),
    over a small model of the JavaScript values they handle (module [Js]). *)

From Stdlib Require Import NArith ZArith String Ascii List Lia.
From Stdlib Require Import Floats.SpecFloat.
From stdpp Require Import base decidable option list gmap.

Set Warnings "-register-all".
Local Open Scope N_scope.

(* ====================================================================== *)
(** ** JavaScript strings and JSON values *)
(* ====================================================================== *)

Module Js.

(** A JavaScript string is a sequence of UTF-16 code units. *)
Definition jstring := list N.

(** String literals of the source are ASCII; [lit] gives their code units. *)
Definition lit (s : string) : jstring :=
  map N_of_ascii (list_ascii_of_string s).

Definition str_eqb (a b : jstring) : bool := bool_decide (a = b).

(** [Boolean(s)] for a string: the empty string is the only falsy one. *)
Definition str_truthy (s : jstring) : bool :=
  match s with [] => false | _ :: _ => true end.

(** [Boolean(s)] for [string | null | undefined]. *)
Definition opt_truthy (s : option jstring) : bool :=
  match s with None => false | Some s => str_truthy s end.

(** ECMAScript WhiteSpace and LineTerminator code points: what
    [String.prototype.trim] strips and what the regular expression class
    [\s] matches. *)
Definition is_whitespace (c : N) : bool :=
  (c =? 9) || (c =? 10) || (c =? 11) || (c =? 12) || (c =? 13) ||
  (c =? 32) || (c =? 0xA0) || (c =? 0x1680) ||
  ((0x2000 <=? c) && (c <=? 0x200A)) ||
  (c =? 0x2028) || (c =? 0x2029) || (c =? 0x202F) || (c =? 0x205F) ||
  (c =? 0x3000) || (c =? 0xFEFF).

Fixpoint trimStart (s : jstring) : jstring :=
  match s with
  | [] => []
  | c :: s' => if is_whitespace c then trimStart s' else s
  end.

Definition trimEnd (s : jstring) : jstring := rev (trimStart (rev s)).

Definition trim (s : jstring) : jstring := trimEnd (trimStart s).

(** [s.split(sep)] for a one-character separator. *)
Fixpoint split (sep : N) (s : jstring) : list jstring :=
  match s with
  | [] => [[]]
  | c :: s' =>
      if c =? sep then [] :: split sep s'
      else match split sep s' with
           | [] => [[c]]
           | w :: ws => (c :: w) :: ws
           end
  end.

(** [parts.join(sep)]. *)
Fixpoint join (sep : jstring) (parts : list jstring) : jstring :=
  match parts with
  | [] => []
  | [p] => p
  | p :: ps => p ++ sep ++ join sep ps
  end.

(** Template-literal rendering of a non-negative integer. *)
Fixpoint digits (u : Decimal.uint) : jstring :=
  match u with
  | Decimal.Nil => []
  | Decimal.D0 u => 48 :: digits u
  | Decimal.D1 u => 49 :: digits u
  | Decimal.D2 u => 50 :: digits u
  | Decimal.D3 u => 51 :: digits u
  | Decimal.D4 u => 52 :: digits u
  | Decimal.D5 u => 53 :: digits u
  | Decimal.D6 u => 54 :: digits u
  | Decimal.D7 u => 55 :: digits u
  | Decimal.D8 u => 56 :: digits u
  | Decimal.D9 u => 57 :: digits u
  end.

Definition decimal (n : N) : jstring := digits (N.to_uint n).

(** *** encodeURIComponent *)

(** The characters [encodeURIComponent] leaves alone: ASCII letters, digits
    and [- _ . ! ~ * ' ( )]. *)
Definition uriUnescaped (c : N) : bool :=
  ((65 <=? c) && (c <=? 90)) || ((97 <=? c) && (c <=? 122)) ||
  ((48 <=? c) && (c <=? 57)) ||
  (c =? 45) || (c =? 95) || (c =? 46) || (c =? 33) || (c =? 126) ||
  (c =? 42) || (c =? 39) || (c =? 40) || (c =? 41).

Definition is_high_surrogate (c : N) : bool := (0xD800 <=? c) && (c <=? 0xDBFF).
Definition is_low_surrogate (c : N) : bool := (0xDC00 <=? c) && (c <=? 0xDFFF).

Definition hex_digit (n : N) : N := if n <? 10 then 48 + n else 55 + n.

(** One octet as [%XX], upper-case hexadecimal. *)
Definition percent (b : N) : jstring :=
  [37; hex_digit (b / 16); hex_digit (b mod 16)].

(** The UTF-8 octets of a code point. *)
Definition utf8 (cp : N) : list N :=
  if cp <? 0x80 then [cp]
  else if cp <? 0x800 then [0xC0 + cp / 64; 0x80 + cp mod 64]
  else if cp <? 0x10000 then
    [0xE0 + cp / 4096; 0x80 + (cp / 64) mod 64; 0x80 + cp mod 64]
  else
    [0xF0 + cp / 262144; 0x80 + (cp / 4096) mod 64;
     0x80 + (cp / 64) mod 64; 0x80 + cp mod 64].

Definition escape (cp : N) : jstring := concat (map percent (utf8 cp)).

(** [encodeURIComponent(s)]; [None] is the [URIError] thrown on an unpaired
    surrogate. *)
Fixpoint encodeURIComponent (s : jstring) : option jstring :=
  match s with
  | [] => Some []
  | c :: s' =>
      if uriUnescaped c then cons c <$> encodeURIComponent s'
      else if is_high_surrogate c then
        match s' with
        | d :: s'' =>
            if is_low_surrogate d then
              app (escape (0x10000 + (c - 0xD800) * 1024 + (d - 0xDC00)))
                <$> encodeURIComponent s''
            else None
        | [] => None
        end
      else if is_low_surrogate c then None
      else app (escape c) <$> encodeURIComponent s'
  end.

(** *** JSON values

    What [JSON.parse] produces.  Numbers are IEEE-754 doubles.  An object is
    its list of own properties; the first entry for a key is the property.
    A JavaScript value that may also be [undefined] is an [option value],
    with [None] for [undefined]. *)
Inductive value : Type :=
  | JNull
  | JBool (b : bool)
  | JNum (x : spec_float)
  | JStr (s : jstring)
  | JArr (items : list value)
  | JObj (props : list (jstring * value)).

(** [Boolean(v)]. *)
Definition truthy (v : option value) : bool :=
  match v with
  | None | Some JNull => false
  | Some (JBool b) => b
  | Some (JNum (S754_zero _)) | Some (JNum S754_nan) => false
  | Some (JNum _) => true
  | Some (JStr s) => str_truthy s
  | Some (JArr _) | Some (JObj _) => true
  end.

Fixpoint prop (k : jstring) (props : list (jstring * value)) : option value :=
  match props with
  | [] => None
  | (k', v) :: props' => if str_eqb k' k then Some v else prop k props'
  end.

(** [v[k]] (or [v.k]) for a [v] that is neither [null] nor [undefined], and
    a key that is no built-in property of strings, arrays or
    [Object.prototype]: every key the sources read is of that kind. *)
Definition get (v : value) (k : jstring) : option value :=
  match v with
  | JObj props => prop k props
  | _ => None
  end.

(** [v?.k]. *)
Definition get_opt (v : option value) (k : jstring) : option value :=
  match v with
  | None | Some JNull => None
  | Some v => get v k
  end.

(** [k in v], for an object or array [v] and such a key. *)
Definition has (k : jstring) (v : value) : bool :=
  match get v k with Some _ => true | None => false end.

(** [a ?? b]. *)
Definition nullish_or (a b : option value) : option value :=
  match a with
  | None | Some JNull => b
  | Some _ => a
  end.

(** [typeof v === "string"], with the string. *)
Definition as_string (v : option value) : option jstring :=
  match v with Some (JStr s) => Some s | _ => None end.

(** [typeof v === "object"]: objects, arrays and [null]. *)
Definition typeof_object (v : option value) : bool :=
  match v with
  | Some JNull | Some (JArr _) | Some (JObj _) => true
  | _ => false
  end.

(** An object literal as [JSON.stringify] writes it: a property whose value
    is [undefined] is left out. *)
Definition obj (fields : list (jstring * option value)) : value :=
  JObj (omap (fun '(k, v) => pair k <$> v) fields).

(** [JSON.stringify(v)], held as the value that [JSON.parse] reads back
    from the text it writes; the text itself is not modelled.  A number
    that is not finite ([Infinity], which [JSON.parse] gives for a literal
    such as [1e999], or [NaN]) is written [null], and [-0] is written [0];
    a finite number is read back as the same double, and a string as the
    same code units. *)
Fixpoint JSON_stringify (v : value) : value :=
  match v with
  | JNull => JNull
  | JBool b => JBool b
  | JNum (S754_zero _) => JNum (S754_zero false)
  | JNum (S754_finite s m e) => JNum (S754_finite s m e)
  | JNum (S754_infinity _) | JNum S754_nan => JNull
  | JStr s => JStr s
  | JArr items => JArr (map JSON_stringify items)
  | JObj props => JObj (map (fun kv => (fst kv, JSON_stringify (snd kv))) props)
  end.

(** [v] has no number that is not finite and no [-0], however deep. *)
Fixpoint exact_in_json (v : value) : bool :=
  match v with
  | JNull | JBool _ | JStr _ => true
  | JNum (S754_zero negative) => negb negative
  | JNum (S754_finite _ _ _) => true
  | JNum (S754_infinity _) | JNum S754_nan => false
  | JArr items => forallb exact_in_json items
  | JObj props => forallb (fun kv => exact_in_json (snd kv)) props
  end.

End Js.

(* ====================================================================== *)
(** ** src/app/api/create-session/route.ts *)
(* ====================================================================== *)

Module Route.
Import Js.

(** The process environment and the platform, as far as the route reads
    them.  [WORKFLOW_ID] is imported from [@/lib/config], which is not part
    of the sources at hand: it is a parameter here.  [crypto_randomUUID] is
    [None] when [crypto.randomUUID] is not a function, and otherwise the id
    it returns; [math_random_id] is what
    [Math.random().toString(36).slice(2)] returns. *)
Record Env := {
  OPENAI_API_KEY : option jstring;
  CHATKIT_API_BASE : option jstring;
  NODE_ENV : option jstring;
  WORKFLOW_ID : jstring;
  crypto_randomUUID : option jstring;
  math_random_id : jstring
}.

(** The body of the incoming request: its text is empty, is not JSON, or
    parses to a value. *)
Inductive RequestBody :=
  | BodyEmpty
  | BodyMalformed
  | BodyJson (v : value).

Record Request := {
  cookie : option jstring;      (* request.headers.get("cookie") *)
  body : RequestBody
}.

Record Response := {
  res_status : N;
  res_headers : list (jstring * jstring);
  res_body : value              (* the body, as [JSON.parse] reads it *)
}.

(** What [fetch] is called with. *)
Record FetchCall := {
  url : jstring;
  method : jstring;
  headers : list (jstring * jstring);
  fetch_body : value;           (* the object given to JSON.stringify *)
  redirect : jstring;
  cache : jstring
}.

(** The upstream response; [json] is [None] when [.json()] rejects. *)
Record UpstreamResponse := {
  status : N;
  statusText : jstring;
  json : option value
}.

(** [response.ok]. *)
Definition ok (r : UpstreamResponse) : bool :=
  (200 <=? status r) && (status r <=? 299).

Inductive FetchOutcome :=
  | Rejected                              (* the network call fails *)
  | Resolved (r : UpstreamResponse).

Definition DEFAULT_CHATKIT_BASE : jstring := lit "https://api.openai.com".
Definition SESSION_COOKIE_NAME : jstring := lit "chatkit_session_id".
Definition SESSION_COOKIE_MAX_AGE : N := 60 * 60 * 24 * 30.

(** The statuses with which [new Response(body, { status })] returns when
    it is given a body: those from 200 to 599 other than the null-body
    statuses 204, 205 and 304 (the other two, 101 and 103, are below 200).
    With any other status the constructor throws. *)
Definition accepts_status (status : N) : bool :=
  (200 <=? status) && (status <=? 599) &&
  negb ((status =? 204) || (status =? 205) || (status =? 304)).

(** The [Response] that [json] returns when the constructor accepts the
    status: the headers given or else the JSON content type, the cookie
    appended when it is truthy, and [JSON.stringify(payload)] as the
    body. *)
Definition json_built (payload : value) (status : N)
    (headers : option (list (jstring * jstring)))
    (sessionCookie : option jstring) : Response :=
  let resHeaders :=
    match headers with
    | Some h => h
    | None => [(lit "Content-Type", lit "application/json")]
    end in
  let resHeaders :=
    match sessionCookie with
    | Some c => if str_truthy c then resHeaders ++ [(lit "Set-Cookie", c)]
                else resHeaders
    | None => resHeaders
    end in
  {| res_status := status; res_headers := resHeaders;
     res_body := JSON_stringify payload |}.

(** [json(payload, status, headers, sessionCookie)]; [None] when
    [new Response] throws.  (The cookie is one that
    [serializeSessionCookie] wrote, which [Headers.append] accepts.) *)
Definition json_response (payload : value) (status : N)
    (headers : option (list (jstring * jstring)))
    (sessionCookie : option jstring) : option Response :=
  if accepts_status status
  then Some (json_built payload status headers sessionCookie)
  else None.

Fixpoint getCookieValue_parts (parts : list jstring) (name : jstring)
    : option jstring :=
  match parts with
  | [] => None
  | part :: parts' =>
      match split 61 part with
      | rawName :: rest =>
          if negb (str_truthy rawName) || (length rest =? 0)%nat
          then getCookieValue_parts parts' name
          else if str_eqb (trim rawName) name
               then Some (trim (join (lit "=") rest))
               else getCookieValue_parts parts' name
      | [] => getCookieValue_parts parts' name
      end
  end.

Definition getCookieValue (header : option jstring) (name : jstring)
    : option jstring :=
  match header with
  | None => None
  | Some h =>
      if negb (str_truthy h) then None
      else getCookieValue_parts (split 59 h) name
  end.

(** [None] when [encodeURIComponent] throws. *)
Definition serializeSessionCookie (env : Env) (value : jstring)
    : option jstring :=
  encoded ← encodeURIComponent value;
  let attrs := [
    SESSION_COOKIE_NAME ++ lit "=" ++ encoded;
    lit "Path=/";
    lit "Max-Age=" ++ decimal SESSION_COOKIE_MAX_AGE;
    lit "HttpOnly";
    lit "SameSite=Lax"
  ] in
  let attrs :=
    if bool_decide (NODE_ENV env = Some (lit "production"))
    then attrs ++ [lit "Secure"] else attrs in
  Some (join (lit "; ") attrs).

(** [resolveUserId]: the user id and the cookie to set, if any; [None] when
    it throws. *)
Definition resolveUserId (env : Env) (request : Request)
    : option (jstring * option jstring) :=
  let existing := getCookieValue (cookie request) SESSION_COOKIE_NAME in
  if opt_truthy existing then
    match existing with
    | Some e => Some (e, None)
    | None => None
    end
  else
    let generated :=
      match crypto_randomUUID env with
      | Some u => u
      | None => math_random_id env
      end in
    c ← serializeSessionCookie env generated;
    Some (generated, Some c).

Definition safeParseJson (req : Request) : value :=
  match body req with
  | BodyEmpty => JNull
  | BodyMalformed => JNull
  | BodyJson v => v
  end.

Definition extractUpstreamError (payload : option value) : option jstring :=
  if negb (truthy payload) then None
  else
    let error := get_opt payload (lit "error") in
    match as_string error with
    | Some s => Some s
    | None =>
      let from_error :=
        if truthy error && typeof_object error &&
           from_option (has (lit "message")) false error
        then as_string (get_opt error (lit "message"))
        else None in
      match from_error with
      | Some msg => Some msg
      | None =>
        let details := get_opt payload (lit "details") in
        match as_string details with
        | Some s => Some s
        | None =>
          let from_details :=
            if truthy details && typeof_object details &&
               from_option (has (lit "error")) false details
            then
              let nested := get_opt details (lit "error") in
              match as_string nested with
              | Some s => Some s
              | None =>
                if truthy nested && typeof_object nested &&
                   from_option (has (lit "message")) false nested
                then as_string (get_opt nested (lit "message"))
                else None
              end
            else None in
          match from_details with
          | Some s => Some s
          | None => as_string (get_opt payload (lit "message"))
          end
        end
      end
    end.

(** The object sent upstream. *)
Definition session_request (userId : jstring)
    (resolvedWorkflowId fileUploadEnabled : option value) : value :=
  obj [
    (lit "user", Some (JStr userId));
    (lit "workflow", Some (obj [(lit "id", resolvedWorkflowId)]));
    (lit "chatkit_configuration",
       Some (obj [(lit "file_upload",
                   Some (obj [(lit "enabled", fileUploadEnabled)]))]))
  ].

Definition missing_key_payload : value :=
  JObj [
    (lit "error", JStr (lit "Missing OPENAI_API_KEY environment variable"));
    (lit "hint",
       JStr (lit "Set it in Vercel " ++ [0x2192] ++ lit " Project " ++
             [0x2192] ++ lit " Settings " ++ [0x2192] ++
             lit " Environment Variables"))
  ].

Definition missing_workflow_payload : value :=
  JObj [
    (lit "error", JStr (lit "Missing workflow id"));
    (lit "hint",
       JStr (lit "Provide { workflow: { id: 'wf_...' } } in the POST body, "
             ++ lit "or set WORKFLOW_ID in '@/lib/config'."))
  ].

Definition unexpected_payload : value :=
  JObj [(lit "error", JStr (lit "Unexpected error while creating session"))].

(** The [catch] block of [POST]: its own call of [json] has the status
    500, which the constructor accepts. *)
Definition unexpected (sessionCookie : option jstring) : Response :=
  json_built unexpected_payload 500 None sessionCookie.

(** [try { return json(...) } catch { ... }]: what [json] returns, or the
    response of the [catch] block when it throws, with [sessionCookie] as
    it is then. *)
Definition try_return (attempt : option Response)
    (sessionCookie : option jstring) : Response :=
  match attempt with
  | Some response => response
  | None => unexpected sessionCookie
  end.

(** [POST(request)].  [fetch] answers the one network call the handler can
    make; the result is the response together with the calls made.  The
    whole body is in one [try]: what throws in it, a rejected [fetch] or a
    [Response] constructor that refuses the status, ends in the [catch]
    block.  [console.error] is not modelled. *)
Definition POST (env : Env) (fetch : FetchCall -> FetchOutcome)
    (request : Request) : Response * list FetchCall :=
  if negb (opt_truthy (OPENAI_API_KEY env))
  then (try_return (json_response missing_key_payload 500 None None) None, [])
  else
  let openaiApiKey := default [] (OPENAI_API_KEY env) in
  match resolveUserId env request with
  | None =>
      (* thrown before [sessionCookie] is assigned *)
      (unexpected None, [])
  | Some (userId, sessionCookie) =>
    let body := Some (safeParseJson request) in
    let resolvedWorkflowId :=
      nullish_or
        (nullish_or (get_opt (get_opt body (lit "workflow")) (lit "id"))
                    (get_opt body (lit "workflowId")))
        (Some (JStr (WORKFLOW_ID env))) in
    if negb (truthy resolvedWorkflowId)
    then (try_return
            (json_response missing_workflow_payload 400 None sessionCookie)
            sessionCookie, [])
    else
    let apiBase :=
      match CHATKIT_API_BASE env with
      | Some b => b
      | None => DEFAULT_CHATKIT_BASE
      end in
    let url := apiBase ++ lit "/v1/chatkit/sessions" in
    let fileUploadEnabled :=
      nullish_or
        (get_opt (get_opt (get_opt body (lit "chatkit_configuration"))
                          (lit "file_upload"))
                 (lit "enabled"))
        (Some (JBool false)) in
    let call := {|
      url := url;
      method := lit "POST";
      headers := [
        (lit "Authorization", lit "Bearer " ++ openaiApiKey);
        (lit "Content-Type", lit "application/json");
        (lit "OpenAI-Beta", lit "chatkit_beta=v1")
      ];
      fetch_body :=
        session_request userId resolvedWorkflowId fileUploadEnabled;
      redirect := lit "manual";
      cache := lit "no-store"
    |} in
    match fetch call with
    | Rejected =>
        (* the rejection is caught, with [sessionCookie] assigned *)
        (unexpected sessionCookie, [call])
    | Resolved upstreamResponse =>
      (* [.json().catch(() => ({}))] *)
      let upstreamJson :=
        match json upstreamResponse with
        | Some v => v
        | None => JObj []
        end in
      if negb (ok upstreamResponse) then
        let upstreamError := extractUpstreamError (Some upstreamJson) in
        let error :=
          match upstreamError with
          | Some e => e
          | None =>
              lit "Failed to create session: " ++
              decimal (status upstreamResponse) ++ lit " " ++
              statusText upstreamResponse
          end in
        (try_return
           (json_response
              (obj [(lit "error", Some (JStr error));
                    (lit "details", Some upstreamJson)])
              (status upstreamResponse) None sessionCookie)
           sessionCookie,
         [call])
      else
        let clientSecret :=
          nullish_or (get_opt (Some upstreamJson) (lit "client_secret"))
                     (Some JNull) in
        let expiresAfter :=
          nullish_or (get_opt (Some upstreamJson) (lit "expires_after"))
                     (Some JNull) in
        (try_return
           (json_response
              (obj [(lit "client_secret", clientSecret);
                    (lit "expires_after", expiresAfter)])
              200 None sessionCookie)
           sessionCookie,
         [call])
    end
  end.

(** The characters of the generated ids: [crypto.randomUUID()] returns
    lower-case hexadecimal digits and ['-'], and
    [Math.random().toString(36).slice(2)] digits and lower-case letters. *)
Definition id_char (c : N) : bool :=
  ((48 <=? c) && (c <=? 57)) || ((97 <=? c) && (c <=? 122)) || (c =? 45).

(** The platform's id generators return such strings. *)
Definition platform_ids (env : Env) : Prop :=
  match crypto_randomUUID env with
  | Some u => Forall (fun c => id_char c = true) u
  | None => Forall (fun c => id_char c = true) (math_random_id env)
  end.

(** The id [resolveUserId] generates. *)
Definition generated_id (env : Env) : jstring :=
  match crypto_randomUUID env with
  | Some u => u
  | None => math_random_id env
  end.

(** *** The [Cookie] header as a browser sends it

    Pairs [name=value] separated by ["; "].  A name is a non-empty token
    (no white space, [';'] or ['=']); a value has no [';'] and no white
    space at its ends. *)
Definition cookie_pair (c : jstring * jstring) : jstring :=
  fst c ++ 61 :: snd c.                                   (* name=value *)

Definition cookie_header (cookies : list (jstring * jstring)) : jstring :=
  join (lit "; ") (map cookie_pair cookies).

Definition cookie_ok (c : jstring * jstring) : Prop :=
  fst c <> [] /\
  Forall (fun x => is_whitespace x = false /\ x <> 59 /\ x <> 61) (fst c) /\
  (59 ∉ snd c) /\ trim (snd c) = snd c.

(** The value of the first cookie of that name. *)
Fixpoint lookup_cookie (name : jstring) (cookies : list (jstring * jstring))
    : option jstring :=
  match cookies with
  | [] => None
  | (n, v) :: rest => if str_eqb n name then Some v else lookup_cookie name rest
  end.

(** *** The specification's reading of the upstream error shapes

    The six places where an upstream error payload may carry its message,
    in the order of the specification, and the first string among them. *)
Definition error_shapes (payload : value) : list (option jstring) :=
  let error := get payload (lit "error") in
  let details := get payload (lit "details") in
  let details_error := details ≫= (fun d => get d (lit "error")) in
  [ as_string error;
    as_string (error ≫= (fun e => get e (lit "message")));
    as_string details;
    as_string details_error;
    as_string (details_error ≫= (fun e => get e (lit "message")));
    as_string (get payload (lit "message")) ].

Fixpoint first_string (candidates : list (option jstring)) : option jstring :=
  match candidates with
  | [] => None
  | Some s :: _ => Some s
  | None :: rest => first_string rest
  end.

(** The field [k] of the upstream JSON response, [null] when absent. *)
Definition upstream_field (r : UpstreamResponse) (k : jstring) : value :=
  default JNull (json r ≫= (fun j => get j k)).

(** The values of the response's [Set-Cookie] headers. *)
Definition set_cookies (r : Response) : list jstring :=
  map snd (filter (fun h => fst h = lit "Set-Cookie") (res_headers r)).

(** The environment with another API key. *)
Definition with_key (key : option jstring) (env : Env) : Env :=
  {| OPENAI_API_KEY := key;
     CHATKIT_API_BASE := CHATKIT_API_BASE env;
     NODE_ENV := NODE_ENV env;
     WORKFLOW_ID := WORKFLOW_ID env;
     crypto_randomUUID := crypto_randomUUID env;
     math_random_id := math_random_id env |}.

(** The call with the key of its [Authorization] header replaced. *)
Definition authorized (key : jstring) (call : FetchCall) : FetchCall :=
  {| url := url call;
     method := method call;
     headers := (lit "Authorization", lit "Bearer " ++ key) ::
                tail (headers call);
     fetch_body := fetch_body call;
     redirect := redirect call;
     cache := cache call |}.

(** [v] is neither [null] nor [undefined]. *)
Definition non_nullish (v : option value) : bool :=
  match v with
  | None | Some JNull => false
  | Some _ => true
  end.


(** The headers of a response of [json]: the content type, and the cookie
    when there is one. *)
Definition json_headers (cookies : list jstring) : list (jstring * jstring) :=
  (lit "Content-Type", lit "application/json") ::
  map (fun c => (lit "Set-Cookie", c)) cookies.

(** What [encodeURIComponent] writes: unescaped characters and ['%']. *)
Definition uri_char (c : N) : Prop := uriUnescaped c = true \/ c = 37.

(** A JavaScript string: every code unit has 16 bits. *)
Definition utf16 (s : jstring) : Prop := Forall (fun c => c < 65536) s.

End Route.

(* ====================================================================== *)
(** ** src/unnamed/part_000: the second copy of the route *)
(* ====================================================================== *)

Module RouteAlt.
Import Js.

(** [typeof value === "object" && value !== null]. *)
Definition isRecord (v : option value) : bool :=
  match v with
  | Some (JArr _) | Some (JObj _) => true
  | _ => false
  end.

Definition getNestedMessage (obj : option value) : option jstring :=
  if negb (isRecord obj) then None
  else
    let err := get_opt obj (lit "error") in
    let from_err :=
      if isRecord err then as_string (get_opt err (lit "message")) else None in
    match from_err with
    | Some msg => Some msg
    | None =>
      match as_string (get_opt obj (lit "message")) with
      | Some top => Some top
      | None =>
        let details := get_opt obj (lit "details") in
        if isRecord details then
          let inner := get_opt details (lit "error") in
          match as_string inner with
          | Some s => Some s
          | None =>
            if isRecord inner then as_string (get_opt inner (lit "message"))
            else None
          end
        else None
      end
    end.

Definition extractUpstreamError (payload : option value) : option jstring :=
  let msg := getNestedMessage payload in
  if opt_truthy msg then msg
  else if isRecord payload then as_string (get_opt payload (lit "error"))
  else None.

(** *** What this copy makes of the six shapes

    In terms of [Route.error_shapes]: the first string among
    [error.message], the top-level [message], [details.error] and
    [details.error.message] when that string is not empty; and when there
    is no string there, or the first one is empty, the top-level [error]
    if it is a string.  The search does not go on after an empty string,
    and a top-level string [details] is not read. *)
Definition alt_first_string (shapes : list (option jstring)) : option jstring :=
  match shapes with
  | [error; error_message; details; details_error; details_error_message;
     message] =>
      let nested :=
        Route.first_string
          [error_message; message; details_error; details_error_message] in
      if opt_truthy nested then nested else error
  | _ => None
  end.

(** How many of the six shapes are strings. *)
Definition strings_found (payload : value) : nat :=
  length (omap id (Route.error_shapes payload)).

(** *** The rest of this copy

    [json], [resolveUserId], [getCookieValue], [serializeSessionCookie] and
    [safeParseJson] are written as in [route.ts]; the definitions of
    [Route] stand for them. *)

(** [ChatKitSessionResponse]; a field that is not set is [None]. *)
Record ChatKitSessionResponse := {
  client_secret : option jstring;
  expires_after : option value;
  error : option value;
  details : option value;
  message : option value
}.

Definition toChatKitSessionResponse (value : option value)
    : ChatKitSessionResponse :=
  if negb (isRecord value) then
    {| client_secret := None; expires_after := None; error := None;
       details := None; message := None |}
  else
    let cs := get_opt value (lit "client_secret") in
    let exp := get_opt value (lit "expires_after") in
    {| client_secret := as_string cs;
       expires_after :=
         match exp with
         | Some (JNum _) | Some (JStr _) => exp
         | Some JNull => Some JNull
         | _ => None
         end;
       error :=
         if from_option (has (lit "error")) false value
         then get_opt value (lit "error") else None;
       details :=
         if from_option (has (lit "details")) false value
         then get_opt value (lit "details") else None;
       message :=
         if from_option (has (lit "message")) false value
         then get_opt value (lit "message") else None |}.

Definition missing_key_payload : value :=
  JObj [
    (lit "error", JStr (lit "Missing OPENAI_API_KEY environment variable"));
    (lit "hint",
       JStr (lit "Set it in Vercel " ++ [0x2192] ++ lit " Project " ++
             [0x2192] ++ lit " Settings " ++ [0x2192] ++
             lit " Environment Variables (Production/Preview)."))
  ].

Definition missing_workflow_payload : value :=
  JObj [
    (lit "error", JStr (lit "Missing workflow id"));
    (lit "hint",
       JStr (lit "Provide { workflow: { id: 'wf_...' } } in POST body, "
             ++ lit "or set WORKFLOW_ID in '@/lib/config'."))
  ].

(** [POST(request)] of this copy, as [Route.POST]. *)
Definition POST (env : Route.Env)
    (fetch : Route.FetchCall -> Route.FetchOutcome)
    (request : Route.Request) : Route.Response * list Route.FetchCall :=
  if negb (opt_truthy (Route.OPENAI_API_KEY env))
  then (Route.try_return
          (Route.json_response missing_key_payload 500 None None) None, [])
  else
  let openaiApiKey := default [] (Route.OPENAI_API_KEY env) in
  match Route.resolveUserId env request with
  | None => (Route.unexpected None, [])
  | Some (userId, sessionCookie) =>
    let body := Some (Route.safeParseJson request) in
    let resolvedWorkflowId :=
      nullish_or
        (nullish_or (get_opt (get_opt body (lit "workflow")) (lit "id"))
                    (get_opt body (lit "workflowId")))
        (Some (JStr (Route.WORKFLOW_ID env))) in
    if negb (truthy resolvedWorkflowId)
    then (Route.try_return
            (Route.json_response missing_workflow_payload 400 None
               sessionCookie)
            sessionCookie, [])
    else
    let apiBase :=
      match Route.CHATKIT_API_BASE env with
      | Some b => b
      | None => Route.DEFAULT_CHATKIT_BASE
      end in
    let url := apiBase ++ lit "/v1/chatkit/sessions" in
    let fileUploadEnabled :=
      nullish_or
        (get_opt (get_opt (get_opt body (lit "chatkit_configuration"))
                          (lit "file_upload"))
                 (lit "enabled"))
        (Some (JBool false)) in
    let call := {|
      Route.url := url;
      Route.method := lit "POST";
      Route.headers := [
        (lit "Authorization", lit "Bearer " ++ openaiApiKey);
        (lit "Content-Type", lit "application/json");
        (lit "OpenAI-Beta", lit "chatkit_beta=v1")
      ];
      Route.fetch_body :=
        Route.session_request userId resolvedWorkflowId fileUploadEnabled;
      Route.redirect := lit "manual";
      Route.cache := lit "no-store"
    |} in
    match fetch call with
    | Route.Rejected => (Route.unexpected sessionCookie, [call])
    | Route.Resolved upstreamResponse =>
      let upstreamJson :=
        match Route.json upstreamResponse with
        | Some v => v
        | None => JObj []
        end in
      if negb (Route.ok upstreamResponse) then
        let upstreamError := extractUpstreamError (Some upstreamJson) in
        let error :=
          match upstreamError with
          | Some e => e
          | None =>
              lit "Failed to create session: " ++
              decimal (Route.status upstreamResponse) ++ lit " " ++
              Route.statusText upstreamResponse
          end in
        (Route.try_return
           (Route.json_response
              (obj [(lit "error", Some (JStr error))])
              (Route.status upstreamResponse) None sessionCookie)
           sessionCookie,
         [call])
      else
        let parsed := toChatKitSessionResponse (Some upstreamJson) in
        let clientSecret :=
          match client_secret parsed with
          | Some s => JStr s
          | None => JNull
          end in
        let expiresAfter :=
          match expires_after parsed with
          | Some v => v
          | None => JNull
          end in
        (Route.try_return
           (Route.json_response
              (obj [(lit "client_secret", Some clientSecret);
                    (lit "expires_after", Some expiresAfter)])
              200 None sessionCookie)
           sessionCookie,
         [call])
    end
  end.

(** What this copy lets through of the two session fields: a string
    [client_secret], and an [expires_after] that is a number or a string. *)
Definition string_or_null (v : option value) : value :=
  match v with Some (JStr s) => JStr s | _ => JNull end.

Definition number_or_string_or_null (v : option value) : value :=
  match v with
  | Some (JNum x) => JNum x
  | Some (JStr s) => JStr s
  | _ => JNull
  end.

End RouteAlt.

(* ====================================================================== *)
(** ** src/unnamed/part_003: the ChatKit panel *)
(* ====================================================================== *)

Module Panel.
Import Js.

Inductive ColorScheme := light | dark.

Inductive FactActionType := save.

Record FactAction := {
  type : FactActionType;
  factId : jstring;
  factText : jstring
}.

Record ErrorState := {
  script : option jstring;
  session : option jstring;
  integration : option jstring;
  retryable : bool
}.

Record ClientToolInvocation := {
  name : jstring;
  params : value
}.

Definition createInitialErrors : ErrorState :=
  {| script := None; session := None; integration := None;
     retryable := false |}.

Definition isRecord (v : option value) : bool :=
  match v with
  | Some (JArr _) | Some (JObj _) => true
  | _ => false
  end.

Definition getStringParam (params : value) (key : jstring) : option jstring :=
  as_string (get params key).

Definition extractErrorDetail (payload : option value) (fallback : jstring)
    : jstring :=
  if negb (truthy payload) then fallback
  else
    let errStr := get_opt payload (lit "error") in
    match as_string errStr with
    | Some s => s
    | None =>
      let errObj := errStr in
      let from_error :=
        if isRecord errObj then as_string (get_opt errObj (lit "message"))
        else None in
      match from_error with
      | Some msg => msg
      | None =>
        let detailsStr := get_opt payload (lit "details") in
        match as_string detailsStr with
        | Some s => s
        | None =>
          let detailsObj := detailsStr in
          let from_details :=
            if isRecord detailsObj then
              let nested := get_opt detailsObj (lit "error") in
              match as_string nested with
              | Some s => Some s
              | None =>
                if isRecord nested
                then as_string (get_opt nested (lit "message"))
                else None
              end
            else None in
          match from_details with
          | Some s => s
          | None =>
            match as_string (get_opt payload (lit "message")) with
            | Some topMsg => topMsg
            | None => fallback
            end
          end
        end
      end
    end.

(** *** Client tools *)

(** What a client tool asks of the page: the two callbacks of the props. *)
Inductive UiEffect :=
  | onThemeRequest (scheme : ColorScheme)
  | onWidgetAction (action : FactAction).

Record ToolResult := { success : bool }.

(** [text.replace(/\s+/g, " ")]: every maximal run of white space becomes
    one space.  [in_run] tells that the previous character was white
    space. *)
Fixpoint replace_ws (in_run : bool) (text : jstring) : jstring :=
  match text with
  | [] => []
  | c :: text' =>
      if is_whitespace c then
        if in_run then replace_ws true text' else 32 :: replace_ws true text'
      else c :: replace_ws false text'
  end.

Definition replace_whitespace_runs (text : jstring) : jstring :=
  replace_ws false text.

(** The specification's reading of the recorded text, "white-space runs
    collapsed to single spaces and trimmed": the words of the text, that is
    its maximal runs of characters other than white space, joined by single
    spaces. *)
Fixpoint words (text : jstring) : list jstring :=
  match text with
  | [] => []
  | c :: text' =>
      if is_whitespace c then words text'
      else
        match text' with
        | [] => [[c]]
        | d :: _ =>
            if is_whitespace d then [c] :: words text'
            else match words text' with
                 | w :: ws => (c :: w) :: ws
                 | [] => [[c]]
                 end
        end
  end.

Definition single_spaced (text : jstring) : jstring := join [32] (words text).

(** [onClientTool(invocation)], over the set [processedFacts.current]: the
    set afterwards, the callbacks invoked, and the returned object. *)
Definition onClientTool (processedFacts : gset jstring)
    (invocation : ClientToolInvocation)
    : gset jstring * list UiEffect * ToolResult :=
  if str_eqb (name invocation) (lit "switch_theme") then
    let requested := getStringParam (params invocation) (lit "theme") in
    if bool_decide (requested = Some (lit "light")) then
      (processedFacts, [onThemeRequest light], {| success := true |})
    else if bool_decide (requested = Some (lit "dark")) then
      (processedFacts, [onThemeRequest dark], {| success := true |})
    else (processedFacts, [], {| success := false |})
  else if str_eqb (name invocation) (lit "record_fact") then
    let id := default [] (getStringParam (params invocation) (lit "fact_id")) in
    let text :=
      default [] (getStringParam (params invocation) (lit "fact_text")) in
    if negb (str_truthy id) || bool_decide (id ∈ processedFacts) then
      (processedFacts, [], {| success := true |})
    else
      ({[ id ]} ∪ processedFacts,
       [onWidgetAction {| type := save; factId := id;
                          factText := trim (replace_whitespace_runs text) |}],
       {| success := true |})
  else (processedFacts, [], {| success := false |}).

(** A run of client-tool invocations on the same [processedFacts] set. *)
Fixpoint run_tools (processedFacts : gset jstring)
    (invocations : list ClientToolInvocation)
    : gset jstring * list UiEffect :=
  match invocations with
  | [] => (processedFacts, [])
  | i :: rest =>
      let '(facts, effects, _) := onClientTool processedFacts i in
      let '(facts', effects') := run_tools facts rest in
      (facts', effects ++ effects')
  end.

(** The fact ids given to [onWidgetAction]. *)
Definition saved_ids (effects : list UiEffect) : list jstring :=
  omap (fun e => match e with
                 | onWidgetAction a => Some (factId a)
                 | onThemeRequest _ => None
                 end) effects.

(** [onThreadChange]: [processedFacts.current.clear()]. *)
Definition onThreadChange (processedFacts : gset jstring) : gset jstring := ∅.

(** *** The component's state and what it renders *)

Inductive ScriptStatus := pending | ready | error.

Record State := {
  processedFacts : gset jstring;
  errors : ErrorState;
  isInitializingSession : bool;
  isMountedRef : bool;
  scriptStatus : ScriptStatus;
  widgetInstanceKey : N
}.

(** [handleResetChat]; the argument is what [hasChatKitWebComponent()]
    returns. *)
Definition handleResetChat (hasChatKitWebComponent : bool) (st : State)
    : State :=
  {| processedFacts := ∅;
     errors := createInitialErrors;
     isInitializingSession := true;
     isMountedRef := isMountedRef st;
     scriptStatus := if hasChatKitWebComponent then ready else pending;
     widgetInstanceKey := widgetInstanceKey st + 1 |}.

(** [a ?? b] on [string | null]. *)
Definition or_else (a b : option jstring) : option jstring :=
  match a with Some _ => a | None => b end.

Definition activeError (e : ErrorState) : option jstring :=
  or_else (session e) (integration e).

Definition blockingError (e : ErrorState) : option jstring :=
  or_else (script e) (activeError e).

(** The props [ChatKitPanel] gives its two children. *)
Record ErrorOverlayProps := {
  error_prop : option jstring;
  fallbackMessage : option jstring;
  onRetry : bool;                 (* handleResetChat or null *)
  retryLabel : jstring
}.

Record Rendered := {
  chatkit_key : N;
  chatkit_className : jstring;
  overlay : ErrorOverlayProps
}.

Definition render (st : State) : Rendered :=
  let blockingError := blockingError (errors st) in
  {| chatkit_key := widgetInstanceKey st;
     chatkit_className :=
       if opt_truthy blockingError || isInitializingSession st
       then lit "pointer-events-none opacity-0"
       else lit "block h-full w-full";
     overlay := {|
       error_prop := blockingError;
       fallbackMessage :=
         if opt_truthy blockingError || negb (isInitializingSession st)
         then None
         else Some (lit "Loading assistant session...");
       onRetry := opt_truthy blockingError && retryable (errors st);
       retryLabel := lit "Restart chat"
     |}
  |}.

(** The widget is hidden: pointer events disabled, opacity 0. *)
Definition hidden (r : Rendered) : bool :=
  str_eqb (chatkit_className r) (lit "pointer-events-none opacity-0").

(** *** getClientSecret

    An asynchronous function: between its start and each of its two
    [await]s the event loop runs, and the component may unmount there.  It
    is written in a monad of the component state, the trace of what
    happened, and exceptions. *)

(** A thrown value: an [Error] with its message, or something else. *)
Inductive Exn :=
  | Error (message : jstring)
  | NotAnError.

(** [Partial<ErrorState>]. *)
Record ErrorUpdates := {
  set_script : option (option jstring);
  set_session : option (option jstring);
  set_integration : option (option jstring);
  set_retryable : option bool
}.

(** [{ ...current, ...updates }]. *)
Definition merge (current : ErrorState) (updates : ErrorUpdates) : ErrorState :=
  {| script := default (script current) (set_script updates);
     session := default (session current) (set_session updates);
     integration := default (integration current) (set_integration updates);
     retryable := default (retryable current) (set_retryable updates) |}.

Inductive Event :=
  | Unmounted                                   (* isMountedRef.current = false *)
  | SetErrorState (updates : ErrorUpdates)
  | SetIsInitializingSession (b : bool).

Record World := {
  panel : State;
  trace : list Event              (* in the order of occurrence *)
}.

Definition M (A : Type) : Type := World -> World * (Exn + A).

Definition ret {A} (a : A) : M A := fun w => (w, inr a).

Definition throw {A} (e : Exn) : M A := fun w => (w, inl e).

Definition bind {A B} (m : M A) (k : A -> M B) : M B :=
  fun w =>
    match m w with
    | (w', inl e) => (w', inl e)
    | (w', inr a) => k a w'
    end.

#[global] Instance M_ret : MRet M := @ret.
#[global] Instance M_bind : MBind M := fun A B k m => bind m k.

(** [try { body } catch (e) { handler e }]. *)
Definition try_catch {A} (body : M A) (handler : Exn -> M A) : M A :=
  fun w =>
    match body w with
    | (w', inl e) => handler e w'
    | (w', inr a) => (w', inr a)
    end.

(** [try { body } finally { final }], for a [final] block that does not
    itself leave the function. *)
Definition try_finally {A} (body : M A) (final : M unit) : M A :=
  fun w =>
    match body w with
    | (w', r) =>
        match final w' with
        | (w'', inl e) => (w'', inl e)
        | (w'', inr _) => (w'', r)
        end
    end.

Definition when (b : bool) (m : M unit) : M unit :=
  if b then m else ret tt.

Definition with_panel (f : State -> State) (ev : list Event) : M unit :=
  fun w => ({| panel := f (panel w); trace := trace w ++ ev |}, inr tt).

(** [isMountedRef.current]. *)
Definition isMounted : M bool :=
  fun w => (w, inr (isMountedRef (panel w))).

Definition setErrorState (updates : ErrorUpdates) : M unit :=
  with_panel
    (fun st =>
       {| processedFacts := processedFacts st;
          errors := merge (errors st) updates;
          isInitializingSession := isInitializingSession st;
          isMountedRef := isMountedRef st;
          scriptStatus := scriptStatus st;
          widgetInstanceKey := widgetInstanceKey st |})
    [SetErrorState updates].

Definition setIsInitializingSession (b : bool) : M unit :=
  with_panel
    (fun st =>
       {| processedFacts := processedFacts st;
          errors := errors st;
          isInitializingSession := b;
          isMountedRef := isMountedRef st;
          scriptStatus := scriptStatus st;
          widgetInstanceKey := widgetInstanceKey st |})
    [SetIsInitializingSession b].

(** The cleanup of the mount effect: [isMountedRef.current = false]. *)
Definition unmount : M unit :=
  with_panel
    (fun st =>
       {| processedFacts := processedFacts st;
          errors := errors st;
          isInitializingSession := isInitializingSession st;
          isMountedRef := false;
          scriptStatus := scriptStatus st;
          widgetInstanceKey := widgetInstanceKey st |})
    [Unmounted].

(** [await p]: the event loop runs, where the component may unmount; then
    the promise is settled. *)
Definition await {A} (unmounts : bool) (settled : Exn + A) : M A :=
  when unmounts unmount;;
  match settled with
  | inl e => throw e
  | inr a => ret a
  end.

(** The response of the session endpoint, as the panel reads it. *)
Record HttpResponse := {
  ok : bool;
  statusText : jstring;
  text : Exn + jstring             (* what [response.text()] settles to *)
}.

(** What surrounds one call: the configuration constants of [@/lib/config]
    (not part of the sources at hand, hence parameters), how the two
    promises settle, whether the component unmounts while each is awaited,
    and [JSON.parse] ([None] when it throws). *)
Record Surroundings := {
  WORKFLOW_ID : jstring;
  CREATE_SESSION_ENDPOINT : jstring;
  fetch : Exn + HttpResponse;
  unmounts_during_fetch : bool;
  unmounts_during_text : bool;
  JSON_parse : jstring -> option value
}.

(** [s.startsWith(p)]. *)
Definition startsWith (s p : jstring) : bool :=
  bool_decide (take (length p) s = p).

Definition isWorkflowConfigured (env : Surroundings) : bool :=
  str_truthy (WORKFLOW_ID env) &&
  negb (startsWith (WORKFLOW_ID env) (lit "wf_replace")).

Definition not_configured_detail : jstring :=
  lit "Set NEXT_PUBLIC_CHATKIT_WORKFLOW_ID in your .env.local file.".

Definition getClientSecret (env : Surroundings) (currentSecret : option jstring)
    : M jstring :=
  if negb (isWorkflowConfigured env) then
    let detail := not_configured_detail in
    mounted ← isMounted;
    when mounted (
      setErrorState {| set_script := None; set_session := Some (Some detail);
                       set_integration := None; set_retryable := Some false |};;
      setIsInitializingSession false);;
    throw (Error detail)
  else
    mounted ← isMounted;
    when mounted (
      when (negb (opt_truthy currentSecret)) (setIsInitializingSession true);;
      setErrorState {| set_script := None; set_session := Some None;
                       set_integration := Some None;
                       set_retryable := Some false |});;
    try_finally
      (try_catch
         (response ← await (unmounts_during_fetch env) (fetch env);
          raw ← await (unmounts_during_text env) (text response);
          let data :=
            if str_truthy raw then
              match JSON_parse env raw with
              | Some v => v
              | None => JObj []
              end
            else JObj [] in
          if negb (ok response) then
            let detail := extractErrorDetail (Some data) (statusText response) in
            throw (Error detail)
          else
            let clientSecret := get_opt (Some data) (lit "client_secret") in
            match as_string clientSecret with
            | Some secret =>
                if (length secret =? 0)%nat
                then throw (Error (lit "Missing client secret in response"))
                else
                  mounted ← isMounted;
                  when mounted (
                    setErrorState {| set_script := None;
                                     set_session := Some None;
                                     set_integration := Some None;
                                     set_retryable := None |});;
                  ret secret
            | None => throw (Error (lit "Missing client secret in response"))
            end)
         (fun error =>
            let detail :=
              match error with
              | Error message => message
              | NotAnError => lit "Unable to start ChatKit session."
              end in
            mounted ← isMounted;
            when mounted (
              setErrorState {| set_script := None;
                               set_session := Some (Some detail);
                               set_integration := None;
                               set_retryable := Some false |});;
            throw (match error with
                   | Error _ => error
                   | NotAnError => Error detail
                   end)))
      (mounted ← isMounted;
       when (mounted && negb (opt_truthy currentSecret))
            (setIsInitializingSession false)).

(** Whether a trace contains a state update after the component is
    unmounted; [mounted] is [isMountedRef.current] where the trace starts. *)
Fixpoint updates_only_while_mounted (mounted : bool) (t : list Event) : bool :=
  match t with
  | [] => true
  | Unmounted :: t' => updates_only_while_mounted false t'
  | SetErrorState _ :: t' => mounted && updates_only_while_mounted mounted t'
  | SetIsInitializingSession _ :: t' =>
      mounted && updates_only_while_mounted mounted t'
  end.

(** [isMountedRef.current] at the end of a trace. *)
Fixpoint mounted_after (mounted : bool) (t : list Event) : bool :=
  match t with
  | [] => mounted
  | Unmounted :: t' => mounted_after false t'
  | _ :: t' => mounted_after mounted t'
  end.

(** What a computation started in [w] does: it extends the trace, updates
    the state only while the component is mounted, leaves [isMountedRef] as
    the trace says, and leaves the error state and the initializing flag
    alone when the component is unmounted from the start. *)
Definition respects_unmount {A} (m : M A) (w : World) : Prop :=
  exists t,
    trace (fst (m w)) = trace w ++ t /\
    updates_only_while_mounted (isMountedRef (panel w)) t = true /\
    isMountedRef (panel (fst (m w))) = mounted_after (isMountedRef (panel w)) t /\
    (isMountedRef (panel w) = false ->
       errors (panel (fst (m w))) = errors (panel w) /\
       isInitializingSession (panel (fst (m w))) =
         isInitializingSession (panel w)).

Definition disciplined {A} (m : M A) : Prop :=
  forall w, respects_unmount m w.

(** The same for a computation run where [isMountedRef.current] is [b]. *)
Definition guarded {A} (b : bool) (m : M A) : Prop :=
  forall w, isMountedRef (panel w) = b -> respects_unmount m w.

(** *** The other handlers of the component *)

Definition SCRIPT_FAILED : jstring :=
  lit "ChatKit web component failed to load. Verify the script URL is reachable.".

(** [setScriptStatus]; the trace keeps to the two setters above. *)
Definition setScriptStatus (s : ScriptStatus) : M unit :=
  with_panel
    (fun st =>
       {| processedFacts := processedFacts st;
          errors := errors st;
          isInitializingSession := isInitializingSession st;
          isMountedRef := isMountedRef st;
          scriptStatus := s;
          widgetInstanceKey := widgetInstanceKey st |})
    [].

(** [handleLoaded], the listener of [chatkit-script-loaded]. *)
Definition handleLoaded : M unit :=
  mounted ← isMounted;
  if negb mounted then ret tt
  else
    setScriptStatus ready;;
    setErrorState {| set_script := Some None; set_session := None;
                     set_integration := None; set_retryable := None |}.

(** [handleError], the listener of [chatkit-script-error]. *)
Definition handleError : M unit :=
  mounted ← isMounted;
  if negb mounted then ret tt
  else
    setScriptStatus error;;
    setErrorState {| set_script := Some (Some SCRIPT_FAILED);
                     set_session := None; set_integration := None;
                     set_retryable := Some false |};;
    setIsInitializingSession false.

(** The body of the script effect, run after mount and whenever
    [scriptStatus] changes; [has] is what [hasChatKitWebComponent()]
    returns.  The timer it may start is [scriptTimeout]. *)
Definition scriptEffect (has : bool) : M unit :=
  if has then handleLoaded else ret tt.

(** The five-second timer of the script effect, when it fires. *)
Definition scriptTimeout (has : bool) : M unit :=
  if negb has then handleError else ret tt.

(** The effect on [isWorkflowConfigured]. *)
Definition workflowEffect (env : Surroundings) : M unit :=
  mounted ← isMounted;
  when (negb (isWorkflowConfigured env) && mounted) (
    setErrorState {| set_script := None;
                     set_session := Some (Some not_configured_detail);
                     set_integration := None; set_retryable := Some false |};;
    setIsInitializingSession false).

(** [onResponseStart]. *)
Definition onResponseStart : M unit :=
  setErrorState {| set_script := None; set_session := None;
                   set_integration := Some None; set_retryable := Some false |}.

(** The state a computation leaves, started in [st]. *)
Definition run {A} (m : M A) (st : State) : State :=
  panel (fst (m {| panel := st; trace := [] |})).

Definition with_facts (facts : gset jstring) (st : State) : State :=
  {| processedFacts := facts;
     errors := errors st;
     isInitializingSession := isInitializingSession st;
     isMountedRef := isMountedRef st;
     scriptStatus := scriptStatus st;
     widgetInstanceKey := widgetInstanceKey st |}.

(** What can happen to a mounted panel: its effects, listeners and timers
    run, the widget calls its callbacks, the page asks for a reset, the
    component unmounts. *)
Inductive Action :=
  | ScriptEffect (has : bool)
  | ScriptLoaded
  | ScriptError
  | ScriptTimeout (has : bool)
  | WorkflowEffect (env : Surroundings)
  | GetClientSecret (env : Surroundings) (currentSecret : option jstring)
  | OnResponseStart
  | OnThreadChange
  | OnClientTool (invocation : ClientToolInvocation)
  | ResetChat (has : bool)
  | Unmount.

Definition act (a : Action) (st : State) : State :=
  match a with
  | ScriptEffect has => run (scriptEffect has) st
  | ScriptLoaded => run handleLoaded st
  | ScriptError => run handleError st
  | ScriptTimeout has => run (scriptTimeout has) st
  | WorkflowEffect env => run (workflowEffect env) st
  | GetClientSecret env currentSecret =>
      run (getClientSecret env currentSecret) st
  | OnResponseStart => run onResponseStart st
  | OnThreadChange => with_facts (onThreadChange (processedFacts st)) st
  | OnClientTool invocation =>
      with_facts (fst (fst (onClientTool (processedFacts st) invocation))) st
  | ResetChat has => handleResetChat has st
  | Unmount => run unmount st
  end.

(** The state of the first render; [has] is what
    [hasChatKitWebComponent()] returns then. *)
Definition initial (has : bool) : State :=
  {| processedFacts := ∅;
     errors := createInitialErrors;
     isInitializingSession := true;
     isMountedRef := true;
     scriptStatus := if has then ready else pending;
     widgetInstanceKey := 0 |}.

(** The state after a sequence of actions, in any order. *)
Definition after (actions : list Action) (st : State) : State :=
  fold_left (fun st a => act a st) actions st.

(** What every state of the panel satisfies: [retryable] is false, there is
    no integration error, and the script error, when there is one, is the
    one message of [handleError]. *)
Definition error_invariant (st : State) : Prop :=
  retryable (errors st) = false /\
  integration (errors st) = None /\
  (script (errors st) = None \/ script (errors st) = Some SCRIPT_FAILED).

(** The actions that clear the script error: the loaded event, the script
    effect when it runs with the web component registered (it calls
    [handleLoaded]), and a reset. *)
Definition clears_script_error (a : Action) : bool :=
  match a with
  | ScriptLoaded | ScriptEffect true | ResetChat _ => true
  | _ => false
  end.

(** The actions whose state updates sit under the mounted flag. *)
Definition guarded_action (a : Action) : bool :=
  match a with
  | ScriptEffect _ | ScriptLoaded | ScriptError | ScriptTimeout _
  | WorkflowEffect _ | GetClientSecret _ _ => true
  | _ => false
  end.

(** What holds of the world and the result a computation ends with, when
    started in [w]. *)
Definition wp {A} (m : M A) (Q : World -> Exn + A -> Prop) (w : World)
    : Prop :=
  Q (fst (m w)) (snd (m w)).

(** The world after an [await]. *)
Definition awaited (unmounts : bool) (w : World) : World :=
  if unmounts then fst (unmount w) else w.

(** [data] as [getClientSecret] reads it from the text of the response. *)
Definition response_data (env : Surroundings) (raw : jstring) : value :=
  if str_truthy raw then
    match JSON_parse env raw with
    | Some v => v
    | None => JObj []
    end
  else JObj [].

(** The message of a thrown value, as the [catch] block reads it. *)
Definition thrown_message (e : Exn) : jstring :=
  match e with
  | Error message => message
  | NotAnError => lit "Unable to start ChatKit session."
  end.

(** How a call of [getClientSecret] ends, read off the configuration and
    the two promises alone: the secret it resolves with, or the message of
    the [Error] it rejects with. *)
Definition session_outcome (env : Surroundings) : jstring + jstring :=
  if negb (isWorkflowConfigured env) then inl not_configured_detail
  else
    match fetch env with
    | inl e => inl (thrown_message e)
    | inr response =>
        match text response with
        | inl e => inl (thrown_message e)
        | inr raw =>
            let data := response_data env raw in
            if negb (ok response)
            then inl (extractErrorDetail (Some data) (statusText response))
            else
              match get data (lit "client_secret") with
              | Some (JStr secret) =>
                  if str_truthy secret then inr secret
                  else inl (lit "Missing client secret in response")
              | _ => inl (lit "Missing client secret in response")
              end
        end
    end.

(** The text normalisation of [record_fact]. *)
Definition normalize (text : jstring) : jstring :=
  trim (replace_whitespace_runs text).

(** Every white-space character of [s] is a space and none follows another;
    [after_space] tells that the character before [s] was one. *)
Fixpoint single_spaces (after_space : bool) (s : jstring) : bool :=
  match s with
  | [] => true
  | c :: s' =>
      if is_whitespace c
      then negb after_space && (c =? 32)%N && single_spaces true s'
      else single_spaces false s'
  end.

(** The characters of [s] other than white space, in order. *)
Definition visible (s : jstring) : jstring :=
  List.filter (fun c => negb (is_whitespace c)) s.

End Panel.

(* ====================================================================== *)
(** ** Concrete inputs *)
(* ====================================================================== *)

Module Examples.
Import Js Route.

Definition uuid : jstring := lit "123e4567-e89b-42d3-a456-426614174000".

Definition env : Env :=
  {| OPENAI_API_KEY := Some (lit "sk-test");
     CHATKIT_API_BASE := None;
     NODE_ENV := Some (lit "production");
     WORKFLOW_ID := lit "wf_123";
     crypto_randomUUID := Some uuid;
     math_random_id := lit "k3j2h1" |}.

Definition env_without_key : Env :=
  {| OPENAI_API_KEY := None;
     CHATKIT_API_BASE := None;
     NODE_ENV := Some (lit "production");
     WORKFLOW_ID := lit "wf_123";
     crypto_randomUUID := Some uuid;
     math_random_id := lit "k3j2h1" |}.

(** A first visit: no cookie, no body. *)
Definition first_visit : Request :=
  {| cookie := None; body := BodyEmpty |}.

(** A returning visitor. *)
Definition returning_cookies : list (jstring * jstring) :=
  [(lit "theme", lit "dark"); (lit "chatkit_session_id", lit "abc")].

Definition returning_visit : Request :=
  {| cookie := Some (lit "theme=dark; chatkit_session_id=abc");
     body := BodyEmpty |}.

(** A request whose session cookie is there with an empty value. *)
Definition empty_cookie_visit : Request :=
  {| cookie := Some (lit "chatkit_session_id="); body := BodyEmpty |}.

(** The call the route makes for [first_visit] under [env]. *)
Definition first_visit_call : FetchCall :=
  {| url := lit "https://api.openai.com/v1/chatkit/sessions";
     method := lit "POST";
     headers := [
       (lit "Authorization", lit "Bearer sk-test");
       (lit "Content-Type", lit "application/json");
       (lit "OpenAI-Beta", lit "chatkit_beta=v1")
     ];
     fetch_body :=
       JObj [
         (lit "user", JStr uuid);
         (lit "workflow", JObj [(lit "id", JStr (lit "wf_123"))]);
         (lit "chatkit_configuration",
            JObj [(lit "file_upload", JObj [(lit "enabled", JBool false)])])
       ];
     redirect := lit "manual";
     cache := lit "no-store" |}.

(** Upstream answers. *)
Definition session_created : UpstreamResponse :=
  {| status := 200; statusText := lit "OK";
     json := Some (JObj [
       (lit "id", JStr (lit "cksess_1"));
       (lit "client_secret", JStr (lit "cs_1"));
       (lit "expires_after", JNum (S754_finite false 75 3));
       (lit "user", JStr uuid)
     ]) |}.



Definition unauthorized : UpstreamResponse :=
  {| status := 401; statusText := lit "Unauthorized";
     json := Some (JObj [
       (lit "error", JObj [(lit "message", JStr (lit "Invalid API key"))])
     ]) |}.

Definition answers (r : UpstreamResponse) : FetchCall -> FetchOutcome :=
  fun _ => Resolved r.


(** Upstream error payloads. *)
Definition error_and_message : value :=
  JObj [(lit "error", JStr (lit "quota exceeded"));
        (lit "message", JStr (lit "see details"))].

Definition details_only : value :=
  JObj [(lit "details", JStr (lit "workflow not found"))].

Definition nested_error : value :=
  JObj [(lit "error", JObj [(lit "message", JStr (lit "Invalid API key"))])].

(** Client-tool invocations. *)
Definition switch_to_dark : Panel.ClientToolInvocation :=
  {| Panel.name := lit "switch_theme";
     Panel.params := JObj [(lit "theme", JStr (lit "dark"))] |}.

Definition switch_to_sepia : Panel.ClientToolInvocation :=
  {| Panel.name := lit "switch_theme";
     Panel.params := JObj [(lit "theme", JStr (lit "sepia"))] |}.

Definition record_name : Panel.ClientToolInvocation :=
  {| Panel.name := lit "record_fact";
     Panel.params := JObj [
       (lit "fact_id", JStr (lit "f1"));
       (lit "fact_text", JStr ([32; 9] ++ lit "Ada" ++ [32; 10; 32] ++
                               lit "Lovelace" ++ [32]))
     ] |}.

Definition record_without_id : Panel.ClientToolInvocation :=
  {| Panel.name := lit "record_fact";
     Panel.params := JObj [(lit "fact_text", JStr (lit "no id"))] |}.

Definition open_drawer : Panel.ClientToolInvocation :=
  {| Panel.name := lit "open_drawer"; Panel.params := JObj [] |}.

(** The panel as it is first rendered. *)
Definition initial_state : Panel.State :=
  {| Panel.processedFacts := ∅;
     Panel.errors := Panel.createInitialErrors;
     Panel.isInitializingSession := true;
     Panel.isMountedRef := true;
     Panel.scriptStatus := Panel.ready;
     Panel.widgetInstanceKey := 0 |}.

Definition initial_world : Panel.World :=
  {| Panel.panel := initial_state; Panel.trace := [] |}.

(** The panel after its component has unmounted. *)
Definition unmounted_world : Panel.World :=
  {| Panel.panel :=
       {| Panel.processedFacts := ∅;
          Panel.errors := Panel.createInitialErrors;
          Panel.isInitializingSession := true;
          Panel.isMountedRef := false;
          Panel.scriptStatus := Panel.ready;
          Panel.widgetInstanceKey := 0 |};
     Panel.trace := [] |}.

(** The session endpoint answers 500 with an empty status text (as over
    HTTP/2) and an empty body; the component stays mounted. *)
Definition endpoint_fails_silently : Panel.Surroundings :=
  {| Panel.WORKFLOW_ID := lit "wf_123";
     Panel.CREATE_SESSION_ENDPOINT := lit "/api/create-session";
     Panel.fetch :=
       inr {| Panel.ok := false; Panel.statusText := [];
              Panel.text := inr [] |};
     Panel.unmounts_during_fetch := false;
     Panel.unmounts_during_text := false;
     Panel.JSON_parse := fun _ => None |}.

(** The session endpoint answers with a secret, and the component unmounts
    while the request is in flight. *)
Definition unmounts_in_flight : Panel.Surroundings :=
  {| Panel.WORKFLOW_ID := lit "wf_123";
     Panel.CREATE_SESSION_ENDPOINT := lit "/api/create-session";
     Panel.fetch :=
       inr {| Panel.ok := true; Panel.statusText := lit "OK";
              Panel.text := inr (lit "{}") |};
     Panel.unmounts_during_fetch := true;
     Panel.unmounts_during_text := false;
     Panel.JSON_parse :=
       fun _ => Some (JObj [(lit "client_secret", JStr (lit "cs_1"))]) |}.

(** A panel whose session error is a message. *)
Definition failed_state : Panel.State :=
  {| Panel.processedFacts := ∅;
     Panel.errors :=
       {| Panel.script := None;
          Panel.session := Some (lit "Missing client secret in response");
          Panel.integration := None;
          Panel.retryable := false |};
     Panel.isInitializingSession := false;
     Panel.isMountedRef := true;
     Panel.scriptStatus := Panel.ready;
     Panel.widgetInstanceKey := 0 |}.

(** A visitor id with characters that need escaping. *)
Definition odd_id : jstring := lit "a b;c=d".




(** An upstream answer whose fields have unexpected types. *)
Definition session_with_odd_types : UpstreamResponse :=
  {| status := 201; statusText := lit "Created";
     json := Some (JObj [
       (lit "client_secret", JObj [(lit "value", JStr (lit "cs_1"))]);
       (lit "expires_after", JBool true)
     ]) |}.


Definition session_never_expires : UpstreamResponse :=
  {| status := 200; statusText := lit "OK";
     json := Some (JObj [
       (lit "client_secret", JStr (lit "cs_1"));
       (lit "expires_after", JNum (S754_infinity false))
     ]) |}.

Definition quota_exceeded : UpstreamResponse :=
  {| status := 429; statusText := lit "Too Many Requests";
     json := Some error_and_message |}.

(** An upstream error whose nested message is empty. *)
Definition empty_nested_message : value :=
  JObj [(lit "error", JObj [(lit "message", JStr [])]);
        (lit "message", JStr (lit "top"))].

End Examples.

(* ====================================================================== *)
(** * Properties *)
(* ====================================================================== *)

Import Js.

(** ** Strings *)

Section Strings.

Implicit Types (s t : jstring) (c sep : N).

Lemma split_no_sep sep s : sep ∉ s -> split sep s = [s].
Proof.
  induction s as [|c s IH]; intros Hs; [reflexivity|].
  apply not_elem_of_cons in Hs as [Hc Hs]. simpl.
  destruct (N.eqb_spec c sep) as [->|_]; [done|].
  by rewrite IH.
Qed.

Lemma split_app sep s t :
  sep ∉ s -> split sep (s ++ sep :: t) = s :: split sep t.
Proof.
  induction s as [|c s IH]; intros Hs; simpl.
  - by rewrite N.eqb_refl.
  - apply not_elem_of_cons in Hs as [Hc Hs].
    destruct (N.eqb_spec c sep) as [->|_]; [done|].
    by rewrite IH.
Qed.

Lemma trimStart_id s : Forall (fun c => is_whitespace c = false) s -> trimStart s = s.
Proof. destruct 1 as [|c s Hc _]; simpl; [done|]. by rewrite Hc. Qed.

Lemma trim_id s : Forall (fun c => is_whitespace c = false) s -> trim s = s.
Proof.
  intros Hs. unfold trim, trimEnd. rewrite (trimStart_id s Hs).
  rewrite trimStart_id; [apply rev_involutive|].
  by apply Forall_rev.
Qed.

Lemma escape_length cp : (3 <= length (escape cp))%nat.
Proof.
  unfold escape, utf8.
  repeat case_match; simpl; lia.
Qed.

Lemma encodeURIComponent_length_n (n : nat) s t :
  (length s <= n)%nat -> encodeURIComponent s = Some t ->
  (length s <= length t)%nat.
Proof.
  revert s t. induction n as [|n IH]; intros s t Hn.
  - destruct s; [|simpl in Hn; lia]. simpl. lia.
  - destruct s as [|c s]; [simpl; lia|]. simpl in Hn. simpl.
    destruct (uriUnescaped c).
    { destruct (encodeURIComponent s) as [t'|] eqn:E; [|done].
      intros [= <-]. simpl. apply IH in E; lia. }
    destruct (is_high_surrogate c).
    { destruct s as [|d s]; [done|]. destruct (is_low_surrogate d); [|done].
      destruct (encodeURIComponent s) as [t'|] eqn:E; [|done].
      intros [= <-]. simpl in Hn. apply IH in E; [|lia].
      rewrite length_app. pose proof (escape_length
        (65536 + (c - 55296) * 1024 + (d - 56320))). simpl. lia. }
    destruct (is_low_surrogate c); [done|].
    destruct (encodeURIComponent s) as [t'|] eqn:E; [|done].
    intros [= <-]. apply IH in E; [|lia].
    rewrite length_app. pose proof (escape_length c). simpl. lia.
Qed.

Lemma encodeURIComponent_length s t :
  encodeURIComponent s = Some t -> (length s <= length t)%nat.
Proof. by apply (encodeURIComponent_length_n (length s)). Qed.

(** A string that [encodeURIComponent] returns as it is consists of
    unescaped characters only. *)
Lemma encodeURIComponent_fixed s :
  encodeURIComponent s = Some s -> Forall (fun c => uriUnescaped c = true) s.
Proof.
  induction s as [|c s IH]; [constructor|]. simpl.
  destruct (uriUnescaped c) eqn:Hc.
  { destruct (encodeURIComponent s) as [t'|] eqn:E; [|done].
    intros [= ->]. constructor; auto. }
  destruct (is_high_surrogate c).
  { destruct s as [|d s]; [done|]. destruct (is_low_surrogate d); [|done].
    destruct (encodeURIComponent s) as [t'|] eqn:E; [|done].
    intros [= H]. apply encodeURIComponent_length in E.
    apply (f_equal length) in H. rewrite length_app in H.
    pose proof (escape_length (65536 + (c - 55296) * 1024 + (d - 56320))).
    simpl in H. lia. }
  destruct (is_low_surrogate c); [done|].
  destruct (encodeURIComponent s) as [t'|] eqn:E; [|done].
  intros [= H]. apply encodeURIComponent_length in E.
  apply (f_equal length) in H. rewrite length_app in H.
  pose proof (escape_length c). simpl in H. lia.
Qed.

Lemma encodeURIComponent_unescaped s :
  Forall (fun c => uriUnescaped c = true) s -> encodeURIComponent s = Some s.
Proof.
  induction 1 as [|c s Hc _ IH]; [done|]. simpl. by rewrite Hc, IH.
Qed.

Lemma uriUnescaped_not_whitespace c :
  uriUnescaped c = true -> is_whitespace c = false.
Proof.
  unfold uriUnescaped, is_whitespace. intros H.
  repeat (apply orb_true_iff in H as [H|H]);
    repeat (apply andb_true_iff in H as [? ?]);
    repeat match goal with
           | H : (_ <=? _) = true |- _ => apply N.leb_le in H
           | H : (_ =? _) = true |- _ => apply N.eqb_eq in H
           end;
    repeat (apply orb_false_iff; split);
    try apply andb_false_iff;
    rewrite ?N.eqb_neq, ?N.leb_gt; lia.
Qed.

End Strings.

(** ** The session cookie *)

Section Cookie.
Import Route.

Lemma serializeSessionCookie_unescaped env v :
  Forall (fun c => uriUnescaped c = true) v ->
  exists rest,
    serializeSessionCookie env v =
      Some ((SESSION_COOKIE_NAME ++ 61 :: v) ++ 59 :: rest).
Proof.
  intros Hv. unfold serializeSessionCookie.
  rewrite (encodeURIComponent_unescaped v Hv). simpl.
  destruct (bool_decide (NODE_ENV env = Some (lit "production")));
    eexists; simpl; rewrite <- ?app_assoc; reflexivity.
Qed.

Lemma getCookieValue_first name v rest :
  name <> [] -> 59 ∉ name -> 61 ∉ name -> 59 ∉ v -> 61 ∉ v ->
  Forall (fun c => is_whitespace c = false) name ->
  Forall (fun c => is_whitespace c = false) v ->
  getCookieValue (Some ((name ++ 61 :: v) ++ 59 :: rest)) name = Some v.
Proof.
  intros Hne Hn59 Hn61 Hv59 Hv61 Hnws Hvws. unfold getCookieValue.
  replace (str_truthy ((name ++ 61 :: v) ++ 59 :: rest)) with true
    by (destruct name; [done|reflexivity]).
  simpl negb. cbv iota.
  rewrite split_app by (intros [H|H]%elem_of_app; [done|];
        apply elem_of_cons in H as [H|H]; done).
  simpl. rewrite split_app by done. rewrite (split_no_sep 61 v) by done.
  replace (str_truthy name) with true by (destruct name; done).
  simpl. rewrite (trim_id name) by done.
  unfold str_eqb. rewrite bool_decide_eq_true_2 by done.
  by rewrite trim_id.
Qed.

Lemma split_nonempty sep (s : jstring) : split sep s <> [].
Proof.
  destruct s as [|c s]; simpl; [done|].
  destruct (c =? sep); [done|]. by destruct (split sep s).
Qed.

Lemma split_cons_ne sep c (s : jstring) :
  c <> sep ->
  split sep (c :: s) =
    match split sep s with
    | w :: ws => (c :: w) :: ws
    | [] => [[c]]
    end.
Proof. intros Hc. simpl. by destruct (N.eqb_spec c sep). Qed.

Lemma join_split sep (s : jstring) : join [sep] (split sep s) = s.
Proof.
  induction s as [|c s IH]; simpl; [done|].
  destruct (N.eqb_spec c sep) as [->|Hc].
  - pose proof (split_nonempty sep s).
    destruct (split sep s) as [|w ws] eqn:Hs; [done|].
    simpl in *. by rewrite IH.
  - destruct (split sep s) as [|w ws] eqn:Hs; [by destruct (split_nonempty sep s)|].
    rewrite <- IH. by destruct ws.
Qed.

(** The parts of a well-formed header: the first pair, and every other
    pair after a space. *)
Lemma split_cookie_header c cs :
  Forall cookie_ok (c :: cs) ->
  split 59 (cookie_header (c :: cs)) =
    cookie_pair c :: map (fun c' => 32 :: cookie_pair c') cs.
Proof.
  revert c. induction cs as [|c' cs IH]; intros c Hok.
  - apply Forall_cons in Hok as [(_ & Hname & Hvalue & _) _].
    unfold cookie_header. simpl. apply split_no_sep.
    unfold cookie_pair. rewrite elem_of_app, elem_of_cons.
    intros [Hin|[?|Hin]]; [|done|done].
    rewrite Forall_forall in Hname. by destruct (Hname _ Hin) as (_ & ? & _).
  - apply Forall_cons in Hok as [(_ & Hname & Hvalue & _) Hrest].
    change (cookie_header (c :: c' :: cs))
      with (cookie_pair c ++ 59 :: 32 :: cookie_header (c' :: cs)).
    rewrite split_app.
    + rewrite split_cons_ne by done. by rewrite (IH c' Hrest).
    + unfold cookie_pair. rewrite elem_of_app, elem_of_cons.
      intros [Hin|[?|Hin]]; [|done|done].
      rewrite Forall_forall in Hname. by destruct (Hname _ Hin) as (_ & ? & _).
Qed.

(** One part of the header, with or without the space before it. *)
Lemma getCookieValue_part (space : bool) c parts name :
  cookie_ok c ->
  getCookieValue_parts
    ((if space then 32 :: cookie_pair c else cookie_pair c) :: parts) name =
    if str_eqb (fst c) name then Some (snd c)
    else getCookieValue_parts parts name.
Proof.
  destruct c as [n v]. intros (Hne & Hname & Hvalue & Htrim). simpl in *.
  assert (Hws : Forall (fun x => is_whitespace x = false) n)
    by (eapply Forall_impl; [exact Hname|]; by intros x (? & _)).
  assert (H61 : 61 ∉ n).
  { intros Hin. rewrite Forall_forall in Hname.
    by destruct (Hname _ Hin) as (_ & _ & ?). }
  set (pre := if space then [32] else []).
  replace (if space then 32 :: cookie_pair (n, v) else cookie_pair (n, v))
    with ((pre ++ n) ++ 61 :: v) by (by destruct space).
  simpl. rewrite split_app.
  2:{ rewrite elem_of_app. intros [Hin|Hin]; [|done].
      destruct space; simpl in Hin; [|by apply elem_of_nil in Hin].
      by apply list_elem_of_singleton in Hin. }
  replace (str_truthy (pre ++ n)) with true
    by (destruct space, n; done).
  pose proof (split_nonempty 61 v) as Hrest.
  destruct (split 61 v) as [|w ws] eqn:Hsplit; [done|]. simpl negb.
  cbn [orb length Nat.eqb].
  replace (trim (pre ++ n)) with n.
  2:{ destruct space; simpl; [|by rewrite trim_id].
      unfold trim. simpl. symmetry. by apply trim_id. }
  rewrite <- Hsplit. change (lit "=") with [61].
  by rewrite join_split, Htrim.
Qed.

(** From a well-formed header, [getCookieValue] reads the value of the first
    cookie of the name asked for. *)
Lemma getCookieValue_cookie_header cookies name :
  Forall cookie_ok cookies ->
  getCookieValue (Some (cookie_header cookies)) name =
    lookup_cookie name cookies.
Proof.
  destruct cookies as [|c cs]; [done|]. intros Hok.
  unfold getCookieValue.
  replace (str_truthy (cookie_header (c :: cs))) with true.
  2:{ apply Forall_cons in Hok as [(Hne & _) _].
      unfold cookie_header. destruct c as [[|x n] v]; [done|].
      by destruct cs. }
  simpl negb. cbv iota. rewrite split_cookie_header by done.
  apply Forall_cons in Hok as [Hc Hcs].
  rewrite (getCookieValue_part false c _ name Hc).
  destruct c as [n v]. simpl.
  destruct (str_eqb n name); [done|].
  induction Hcs as [|[n' v'] cs Hc' _ IH]; [done|]. simpl map.
  rewrite (getCookieValue_part true (n', v') _ name Hc'). simpl.
  by destruct (str_eqb n' name).
Qed.

Lemma unescaped_no_separator v sep :
  uriUnescaped sep = false -> Forall (fun c => uriUnescaped c = true) v ->
  sep ∉ v.
Proof.
  intros Hsep Hv Hin. rewrite Forall_forall in Hv.
  apply Hv in Hin. congruence.
Qed.

(** C9: for every visitor id [v] without [';'] (59) and ['='] (61) that
    [encodeURIComponent] leaves unchanged, [serializeSessionCookie v] yields
    a cookie string from which [getCookieValue], asked for
    [chatkit_session_id], reads exactly [v] back. *)
Theorem cookie_roundtrip (env : Env) (v : jstring) :
  59 ∉ v -> 61 ∉ v -> encodeURIComponent v = Some v ->
  exists header,
    serializeSessionCookie env v = Some header /\
    getCookieValue (Some header) SESSION_COOKIE_NAME = Some v.
Proof.
  intros H59 H61 Hv. apply encodeURIComponent_fixed in Hv.
  destruct (serializeSessionCookie_unescaped env v Hv) as [rest ->].
  eexists; split; [reflexivity|].
  apply getCookieValue_first; try done.
  - apply (bool_decide_unpack _). by vm_compute.
  - apply (bool_decide_unpack _). by vm_compute.
  - apply (bool_decide_unpack _). by vm_compute.
  - eapply Forall_impl; [exact Hv|]. apply uriUnescaped_not_whitespace.
Qed.

Lemma id_char_unescaped c : id_char c = true -> uriUnescaped c = true.
Proof.
  unfold id_char, uriUnescaped. intros H.
  repeat (apply orb_true_iff in H as [H|H]);
    repeat (apply andb_true_iff in H as [? ?]);
    repeat match goal with
           | H : (_ <=? _) = true |- _ => apply N.leb_le in H
           | H : (_ =? _) = true |- _ => apply N.eqb_eq in H
           end.
  - replace ((48 <=? c) && (c <=? 57)) with true; [by rewrite !orb_true_r|].
    symmetry. apply andb_true_iff. rewrite !N.leb_le. lia.
  - replace ((97 <=? c) && (c <=? 122)) with true; [by rewrite !orb_true_r|].
    symmetry. apply andb_true_iff. rewrite !N.leb_le. lia.
  - subst c. reflexivity.
Qed.

(** In particular the round trip holds for every generated id. *)
Lemma cookie_roundtrip_generated (env : Env) (v : jstring) :
  Forall (fun c => id_char c = true) v ->
  exists header,
    serializeSessionCookie env v = Some header /\
    getCookieValue (Some header) SESSION_COOKIE_NAME = Some v.
Proof.
  intros Hv.
  assert (Hu : Forall (fun c => uriUnescaped c = true) v)
    by (eapply Forall_impl; [exact Hv|]; apply id_char_unescaped).
  destruct (serializeSessionCookie_unescaped env v Hu) as [rest ->].
  eexists; split; [reflexivity|].
  apply getCookieValue_first; try done.
  - apply (bool_decide_unpack _). by vm_compute.
  - apply (bool_decide_unpack _). by vm_compute.
  - by apply unescaped_no_separator.
  - by apply unescaped_no_separator.
  - apply (bool_decide_unpack _). by vm_compute.
  - eapply Forall_impl; [exact Hu|]. apply uriUnescaped_not_whitespace.
Qed.

Lemma cookie_roundtrip_witness :
  exists header,
    serializeSessionCookie Examples.env
      Examples.uuid = Some header /\
    getCookieValue (Some header) SESSION_COOKIE_NAME =
      Some Examples.uuid.
Proof.
  apply (cookie_roundtrip Examples.env
           Examples.uuid).
  - apply (bool_decide_unpack _). vm_compute. exact I.
  - apply (bool_decide_unpack _). vm_compute. exact I.
  - vm_compute. reflexivity.
Defined.

End Cookie.

(** ** What [JSON.stringify] keeps *)

Section Stringify.
Import Js.

(** Induction on a JSON value, with the items of an array and the
    properties of an object. *)
Lemma value_nested_ind (P : value -> Prop) :
  P JNull ->
  (forall b, P (JBool b)) ->
  (forall x, P (JNum x)) ->
  (forall s, P (JStr s)) ->
  (forall items, Forall P items -> P (JArr items)) ->
  (forall props, Forall (fun kv => P (snd kv)) props -> P (JObj props)) ->
  forall v, P v.
Proof.
  intros Hnull Hbool Hnum Hstr Harr Hobj.
  fix IH 1. intros [|b|x|s|items|props].
  - exact Hnull.
  - apply Hbool.
  - apply Hnum.
  - apply Hstr.
  - apply Harr. induction items as [|i items IHitems].
    + apply List.Forall_nil.
    + apply List.Forall_cons; [apply IH | exact IHitems].
  - apply Hobj. induction props as [|[k v] props IHprops].
    + apply List.Forall_nil.
    + apply List.Forall_cons; [apply IH | exact IHprops].
Qed.

(** A value without [Infinity], [NaN] and [-0] is read back as it is. *)
Lemma JSON_stringify_exact (v : value) :
  exact_in_json v = true -> JSON_stringify v = v.
Proof.
  induction v as [|b|x|s|items IH|props IH] using value_nested_ind;
    try reflexivity.
  - by destruct x as [[]| | |].
  - cbn [exact_in_json JSON_stringify]. intros Hall. f_equal.
    induction IH as [|i items Hi _ IHitems]; [reflexivity|].
    cbn in Hall. apply andb_true_iff in Hall as [Hhead Hrest].
    cbn [map]. by rewrite (Hi Hhead), (IHitems Hrest).
  - cbn [exact_in_json JSON_stringify]. intros Hall. f_equal.
    induction IH as [|[k v] props Hv _ IHprops]; [reflexivity|].
    cbn in Hall. apply andb_true_iff in Hall as [Hhead Hrest].
    cbn [map fst snd] in *. by rewrite (Hv Hhead), (IHprops Hrest).
Qed.

(** Writing twice is writing once: what is read back has no [Infinity],
    [NaN] or [-0] left. *)
Lemma JSON_stringify_exact_in_json (v : value) :
  exact_in_json (JSON_stringify v) = true.
Proof.
  induction v as [|b|x|s|items IH|props IH] using value_nested_ind;
    try reflexivity.
  - by destruct x as [[]| | |].
  - cbn [exact_in_json JSON_stringify].
    induction IH as [|i items Hi _ IHitems]; [reflexivity|].
    cbn. by rewrite Hi, IHitems.
  - cbn [exact_in_json JSON_stringify].
    induction IH as [|[k v] props Hv _ IHprops]; [reflexivity|].
    cbn in *. by rewrite Hv, IHprops.
Qed.

Lemma prop_JSON_stringify (k : jstring) (props : list (jstring * value)) :
  prop k (map (fun kv => (fst kv, JSON_stringify (snd kv))) props) =
    JSON_stringify <$> prop k props.
Proof.
  induction props as [|[k' v] props IH]; [reflexivity|].
  cbn. by destruct (str_eqb k' k).
Qed.

End Stringify.

(** ** The session route *)

(** Case analysis on what the property lookups of a payload return. *)
Ltac payload_cases :=
  repeat match goal with
         | |- context [prop ?k ?l] =>
             destruct (prop k l) as [[]|];
             cbn [negb andb mbind option_bind Route.first_string opt_truthy]
         | |- context [str_truthy ?s] => destruct (str_truthy s)
         | |- context [match ?b with true => _ | false => _ end] =>
             is_var b; destruct b
         | |- context [andb ?b _] =>
             is_var b; destruct b; cbn [negb andb]
         | |- context [match ?x with S754_zero _ => _ | _ => _ end] =>
             is_var x; destruct x
         end.

Lemma extractUpstreamError_shapes (payload : value) :
  Route.extractUpstreamError (Some payload) =
    Route.first_string (Route.error_shapes payload).
Proof.
  unfold Route.extractUpstreamError, Route.error_shapes.
  destruct payload as [|b|x|s|items|props]; try reflexivity.
  - by destruct b.
  - by destruct x.
  - by destruct s.
  - unfold has, get_opt, get, as_string, typeof_object, truthy, from_option.
    cbn [negb mbind option_bind Route.first_string].
    payload_cases; reflexivity.
Qed.

Section Post.
Import Route.

Lemma get_or_null (j : value) (k : jstring) :
  nullish_or (get_opt (Some j) k) (Some JNull) = Some (default JNull (get j k)).
Proof.
  destruct j; simpl; try reflexivity.
  destruct (prop k props) as [[]|]; reflexivity.
Qed.

Variable (env : Env) (fetch : FetchCall -> FetchOutcome) (request : Request).

(** The handler reaches the upstream provider at most once, and when it
    does, the user id and the cookie to set are those of [resolveUserId]
    and the response is built from how the call settles. *)
Lemma POST_calls_once :
  snd (POST env fetch request) = [] \/
  exists call, snd (POST env fetch request) = [call].
Proof.
  unfold POST. repeat case_match; simpl; eauto.
Qed.

Lemma POST_called call :
  snd (POST env fetch request) = [call] ->
  exists key userId sessionCookie,
    OPENAI_API_KEY env = Some key /\ str_truthy key = true /\
    resolveUserId env request = Some (userId, sessionCookie) /\
    get (fetch_body call) (lit "user") = Some (JStr userId) /\
    fst (POST env fetch request) =
      match fetch call with
      | Rejected => unexpected sessionCookie
      | Resolved r =>
          let upstreamJson := default (JObj []) (json r) in
          if ok r then
            json_built
              (JObj [(lit "client_secret",
                      default JNull (get upstreamJson (lit "client_secret")));
                     (lit "expires_after",
                      default JNull (get upstreamJson (lit "expires_after")))])
              200 None sessionCookie
          else if accepts_status (status r) then
            json_built
              (JObj [(lit "error",
                      JStr (default
                              (lit "Failed to create session: " ++
                               decimal (status r) ++ lit " " ++ statusText r)
                              (extractUpstreamError (Some upstreamJson))));
                     (lit "details", upstreamJson)])
              (status r) None sessionCookie
          else unexpected sessionCookie
      end.
Proof.
  unfold POST.
  destruct (OPENAI_API_KEY env) as [key|]; [|done]. simpl opt_truthy.
  destruct (str_truthy key) eqn:Hkey; [|done]. simpl negb. cbv iota.
  cbv zeta. simpl default.
  destruct (resolveUserId env request) as [[userId sessionCookie]|]; [|done].
  destruct (truthy (nullish_or _ _)) eqn:Htruthy; [|done]. simpl negb. cbv iota.
  match goal with |- context [fetch ?c] => set (the_call := c) end.
  destruct (fetch the_call) as [|r] eqn:Hfetch;
    [|destruct (ok r) eqn:Hok; simpl negb; cbv iota];
    cbn [snd fst]; intros [= Hc];
    rewrite <- Hc; exists key, userId, sessionCookie; rewrite Hfetch, ?Hok;
    repeat split; try done.
  - rewrite !get_or_null. by destruct (json r).
  - unfold json_response. cbv zeta.
    destruct (accepts_status (status r)); [|done]. by destruct (json r).
Qed.

Lemma set_cookies_json_response payload st (c : option jstring) :
  set_cookies (json_built payload st None c) =
    match c with
    | Some c => if str_truthy c then [c] else []
    | None => []
    end.
Proof.
  destruct c as [c|]; [|reflexivity].
  unfold json_built. destruct (str_truthy c); reflexivity.
Qed.

(** Every response is built by [json], with the cookie of [resolveUserId]
    once the API key is there, and every upstream call carries its user
    id. *)
Lemma POST_shape :
  exists payload st sessionCookie,
    fst (POST env fetch request) = json_built payload st None sessionCookie /\
    match (if opt_truthy (OPENAI_API_KEY env)
           then resolveUserId env request else None) with
    | Some (userId, c) =>
        sessionCookie = c /\
        forall call, call ∈ snd (POST env fetch request) ->
                     get (fetch_body call) (lit "user") = Some (JStr userId)
    | None => sessionCookie = None /\ snd (POST env fetch request) = []
    end.
Proof.
  unfold POST.
  destruct (OPENAI_API_KEY env) as [key|]; simpl opt_truthy; [|by eauto 6].
  destruct (str_truthy key) eqn:Hkey; simpl negb; cbv iota; [|by eauto 6].
  cbv zeta. simpl default.
  destruct (resolveUserId env request) as [[userId sessionCookie]|];
    [|by unfold unexpected; eauto 6].
  destruct (truthy (nullish_or _ _)); simpl negb; cbv iota.
  2:{ do 3 eexists; split; [reflexivity|]. split; [done|].
      intros call Hin. by apply elem_of_nil in Hin. }
  match goal with |- context [fetch ?c] => set (the_call := c) end.
  destruct (fetch the_call) as [|r];
    [|destruct (ok r); simpl negb; cbv iota;
      [|unfold json_response; destruct (accepts_status (status r))]];
    cbn [fst snd try_return]; unfold unexpected;
    do 3 eexists; (split; [reflexivity|]); (split; [done|]);
    intros call ->%list_elem_of_singleton; reflexivity.
Qed.

Lemma resolveUserId_existing v :
  getCookieValue (cookie request) SESSION_COOKIE_NAME = Some v -> v <> [] ->
  resolveUserId env request = Some (v, None).
Proof.
  intros Hv Hne. unfold resolveUserId. rewrite Hv. by destruct v.
Qed.

Lemma resolveUserId_generated :
  opt_truthy (getCookieValue (cookie request) SESSION_COOKIE_NAME) = false ->
  platform_ids env ->
  exists c,
    serializeSessionCookie env (generated_id env) = Some c /\
    getCookieValue (Some c) SESSION_COOKIE_NAME = Some (generated_id env) /\
    str_truthy c = true /\
    resolveUserId env request = Some (generated_id env, Some c).
Proof.
  intros Hnone Hids.
  assert (Hg : Forall (fun c => id_char c = true) (generated_id env)).
  { unfold platform_ids, generated_id in *.
    by destruct (crypto_randomUUID env). }
  destruct (cookie_roundtrip_generated env _ Hg) as (c & Hc & Hback).
  exists c. repeat split; try done.
  - assert (Hu : Forall (fun c => uriUnescaped c = true) (generated_id env))
      by (eapply Forall_impl; [exact Hg|]; apply id_char_unescaped).
    destruct (serializeSessionCookie_unescaped env _ Hu) as [rest Hrest].
    rewrite Hrest in Hc. by injection Hc as <-.
  - unfold resolveUserId. rewrite Hnone. fold (generated_id env).
    by rewrite Hc.
Qed.



(** C4, as amended: when the upstream provider responds ok, the endpoint
    returns status 200 with a body of exactly the two fields
    [client_secret] and [expires_after], each the upstream field of that
    name as [JSON.stringify] writes it, and [null] when the upstream
    response has none: the upstream field itself when it holds no number
    that is not finite and no [-0]; the rest of the response (its headers)
    comes from [json] and the cookie of [resolveUserId], not from
    upstream. *)
Theorem POST_success_body (call : FetchCall) (r : UpstreamResponse) :
  snd (POST env fetch request) = [call] ->
  fetch call = Resolved r -> ok r = true ->
  let client_secret := upstream_field r (lit "client_secret") in
  let expires_after := upstream_field r (lit "expires_after") in
  res_status (fst (POST env fetch request)) = 200 /\
  res_body (fst (POST env fetch request)) =
    JObj [(lit "client_secret", JSON_stringify client_secret);
          (lit "expires_after", JSON_stringify expires_after)] /\
  (exact_in_json client_secret = true -> exact_in_json expires_after = true ->
     res_body (fst (POST env fetch request)) =
       JObj [(lit "client_secret", client_secret);
             (lit "expires_after", expires_after)]) /\
  exists userId sessionCookie,
    resolveUserId env request = Some (userId, sessionCookie) /\
    json_response
      (JObj [(lit "client_secret", client_secret);
             (lit "expires_after", expires_after)])
      200 None sessionCookie = Some (fst (POST env fetch request)).
Proof.
  intros Hcall Hfetch Hok.
  destruct (POST_called call Hcall)
    as (key & userId & sessionCookie & _ & _ & Hresolve & _ & ->).
  rewrite Hfetch. cbv zeta. rewrite Hok.
  assert (Hfield : forall k, default JNull (get (default (JObj []) (json r)) k)
                             = upstream_field r k)
    by (intros k; unfold upstream_field; by destruct (json r)).
  rewrite !Hfield. split; [done|]. split; [done|]. split; [|by eauto].
  intros Hsecret Hexpires. cbn [res_body json_built JSON_stringify map fst snd].
  by rewrite (JSON_stringify_exact _ Hsecret), (JSON_stringify_exact _ Hexpires).
Qed.

(** C2, as amended: from a well-formed [Cookie] header the route reads the
    value of the first [chatkit_session_id] cookie; when the value [v] it
    reads is not empty, every body sent upstream has [user] equal to [v] and
    the response carries no [Set-Cookie]; when it reads none or an empty one
    and [OPENAI_API_KEY] is set, the id of the platform's generator is the
    [user] of every body sent upstream and the response, whichever it is,
    carries exactly one [Set-Cookie], the serialized cookie from which that
    id is read back; and without [OPENAI_API_KEY] nothing is sent upstream
    and no cookie is set. *)
Theorem sticky_visitor_id :
  (forall cookies,
     Forall cookie_ok cookies ->
     cookie request = Some (cookie_header cookies) ->
     getCookieValue (cookie request) SESSION_COOKIE_NAME =
       lookup_cookie SESSION_COOKIE_NAME cookies) /\
  (forall v,
     getCookieValue (cookie request) SESSION_COOKIE_NAME = Some v -> v <> [] ->
     (forall call, call ∈ snd (POST env fetch request) ->
                   get (fetch_body call) (lit "user") = Some (JStr v)) /\
     set_cookies (fst (POST env fetch request)) = []) /\
  (opt_truthy (getCookieValue (cookie request) SESSION_COOKIE_NAME) = false ->
   opt_truthy (OPENAI_API_KEY env) = true -> platform_ids env ->
   exists c,
     serializeSessionCookie env (generated_id env) = Some c /\
     getCookieValue (Some c) SESSION_COOKIE_NAME = Some (generated_id env) /\
     (forall call, call ∈ snd (POST env fetch request) ->
        get (fetch_body call) (lit "user") = Some (JStr (generated_id env))) /\
     set_cookies (fst (POST env fetch request)) = [c]) /\
  (opt_truthy (OPENAI_API_KEY env) = false ->
   snd (POST env fetch request) = [] /\
   set_cookies (fst (POST env fetch request)) = []).
Proof.
  split.
  { intros cookies Hok ->. by apply getCookieValue_cookie_header. }
  destruct POST_shape as (payload & st & sessionCookie & Hres & Hshape).
  rewrite Hres, set_cookies_json_response. split; [|split].
  - intros v Hv Hne.
    destruct (opt_truthy (OPENAI_API_KEY env)).
    + rewrite (resolveUserId_existing v Hv Hne) in Hshape.
      by destruct Hshape as [-> Hcalls].
    + destruct Hshape as [-> Hcalls]. split; [|done].
      rewrite Hcalls. intros call Hin. by apply elem_of_nil in Hin.
  - intros Hnone Hkey Hids. rewrite Hkey in Hshape.
    destruct (resolveUserId_generated Hnone Hids)
      as (c & Hc & Hback & Htruthy & Hresolve).
    rewrite Hresolve in Hshape. destruct Hshape as [-> Hcalls].
    exists c. rewrite Htruthy. by repeat split.
  - intros Hkey. rewrite Hkey in Hshape. by destruct Hshape as [-> ->].
Qed.

End Post.

(** *** The route on concrete requests *)

Section PostExamples.
Import Route Examples.





Lemma POST_success_body_witness :
  res_status (fst (POST env (answers session_created) first_visit)) = 200 /\
  res_body (fst (POST env (answers session_created) first_visit)) =
    JObj [(lit "client_secret", JStr (lit "cs_1"));
          (lit "expires_after", JNum (S754_finite false 75 3))].
Proof.
  destruct (POST_success_body env (answers session_created) first_visit
              first_visit_call session_created) as (Hstatus & _ & Hbody & _);
    [vm_compute; reflexivity | reflexivity | reflexivity |].
  split; [exact Hstatus | apply Hbody; reflexivity].
Defined.

(** Upstream answers ok with an [expires_after] beyond the range of a
    double, which [JSON.parse] reads as [Infinity]: the field is not copied,
    the client is sent [null]. *)
Lemma POST_success_body_not_copied :
  snd (POST env (answers session_never_expires) first_visit)
    = [first_visit_call] /\
  answers session_never_expires first_visit_call
    = Resolved session_never_expires /\
  ok session_never_expires = true /\
  upstream_field session_never_expires (lit "expires_after")
    = JNum (S754_infinity false) /\
  get (res_body (fst (POST env (answers session_never_expires) first_visit)))
      (lit "expires_after") = Some JNull /\
  get (res_body (fst (POST env (answers session_never_expires) first_visit)))
      (lit "expires_after") <>
    Some (upstream_field session_never_expires (lit "expires_after")).
Proof. vm_compute. repeat split; congruence. Qed.

Lemma sticky_visitor_id_witness :
  (get (fetch_body first_visit_call) (lit "user") = Some (JStr uuid) /\
   exists c,
     set_cookies (fst (POST env (answers session_created) first_visit)) = [c]) /\
  set_cookies (fst (POST env (answers session_created) returning_visit)) = [] /\
  (forall call,
     call ∈ snd (POST env (answers session_created) returning_visit) ->
     get (fetch_body call) (lit "user") = Some (JStr (lit "abc"))) /\
  set_cookies (fst (POST env_without_key (answers session_created) first_visit))
    = [].
Proof.
  destruct (sticky_visitor_id env (answers session_created) first_visit)
    as (_ & _ & Hfresh & _).
  destruct (sticky_visitor_id env (answers session_created) returning_visit)
    as (Hheader & Hsticky & _ & _).
  destruct (sticky_visitor_id env_without_key (answers session_created)
              first_visit) as (_ & _ & _ & Hnokey).
  destruct Hfresh as (c & _ & _ & Huser & Hset);
    [reflexivity | reflexivity | |].
  { apply (bool_decide_unpack _). vm_compute. exact I. }
  destruct (Hsticky (lit "abc")) as (Husers & Hnone); [|discriminate|].
  { rewrite (Hheader returning_cookies); [reflexivity| |reflexivity].
    apply List.Forall_cons; [|apply List.Forall_cons; [|apply List.Forall_nil]];
      (split; [discriminate|]);
      (split; [apply (bool_decide_unpack _); vm_compute; exact I|]);
      (split; [apply (bool_decide_unpack _); vm_compute; exact I|]);
      vm_compute; reflexivity. }
  destruct Hnokey as (_ & Hnocookie); [reflexivity|].
  split; [split|split; [|split]].
  - apply Huser.
    replace (snd (POST env (answers session_created) first_visit))
      with [first_visit_call] by (vm_compute; reflexivity).
    constructor.
  - exists c. exact Hset.
  - exact Hnone.
  - exact Husers.
  - exact Hnocookie.
Defined.

(** Two exceptions to the sticky visitor id.  Without [OPENAI_API_KEY] a
    request that has no cookie gets no [Set-Cookie] and nothing is sent
    upstream; and a request whose cookie [chatkit_session_id=] has the empty
    value is given a generated id, which is sent upstream as [user] in place
    of the empty value, and a [Set-Cookie]. *)
Lemma POST_cookie_exceptions :
  (cookie first_visit = None /\
   snd (POST env_without_key (answers session_created) first_visit) = [] /\
   set_cookies (fst (POST env_without_key (answers session_created) first_visit))
     = []) /\
  (getCookieValue (cookie empty_cookie_visit) SESSION_COOKIE_NAME = Some [] /\
   snd (POST env (answers session_created) empty_cookie_visit)
     = [first_visit_call] /\
   get (fetch_body first_visit_call) (lit "user") = Some (JStr uuid) /\
   uuid <> [] /\
   length (set_cookies
             (fst (POST env (answers session_created) empty_cookie_visit)))
     = 1%nat).
Proof. vm_compute. repeat split; congruence. Qed.

End PostExamples.

(** ** The two copies of the error extraction *)

Section TwoCopies.
Import Route.

Lemma alt_extractUpstreamError_shapes (payload : value) :
  RouteAlt.extractUpstreamError (Some payload) =
    RouteAlt.alt_first_string (error_shapes payload).
Proof.
  unfold RouteAlt.extractUpstreamError, RouteAlt.getNestedMessage,
    RouteAlt.alt_first_string, error_shapes.
  destruct payload as [|b|x|s|items|props]; try reflexivity.
  unfold RouteAlt.isRecord, get_opt, get, as_string.
  cbn [negb mbind option_bind first_string].
  payload_cases; reflexivity.
Qed.

Lemma first_string_single (a b c d e f : option jstring) :
  (length (omap id [a; b; c; d; e; f]) <= 1)%nat ->
  c = None ->
  Forall (fun s => s <> Some []) [a; b; c; d; e; f] ->
  first_string [a; b; c; d; e; f] =
    RouteAlt.alt_first_string [a; b; c; d; e; f].
Proof.
  intros Hone -> Hne.
  repeat match goal with H : Forall _ (_ :: _) |- _ =>
    apply Forall_cons in H as [? H] end.
  destruct a as [[|??]|], b as [[|??]|], d as [[|??]|], e as [[|??]|],
    f as [[|??]|]; simpl in *; try done; try lia.
Qed.

(** C10, as amended: the copy in [part_000] reads the six shapes in
    another way: it takes the first string among [error.message], the
    top-level [message], [details.error] and [details.error.message] and
    returns it when it is not empty; when there is no string there, or the
    first one is empty, it returns the top-level [error] if that is a
    string and [null] otherwise; it never reads a top-level string
    [details].  The two copies return the same result for [undefined] and
    for every payload in which at most one of the six shapes is a string,
    that string is not empty and is not the top-level [details]. *)
Theorem extractUpstreamError_copies :
  (forall payload : value,
     RouteAlt.extractUpstreamError (Some payload) =
       RouteAlt.alt_first_string (error_shapes payload)) /\
  extractUpstreamError None = RouteAlt.extractUpstreamError None /\
  (forall payload : value,
     (RouteAlt.strings_found payload <= 1)%nat ->
     as_string (get payload (lit "details")) = None ->
     Forall (fun s => s <> Some []) (error_shapes payload) ->
     extractUpstreamError (Some payload) =
       RouteAlt.extractUpstreamError (Some payload)).
Proof.
  split; [exact alt_extractUpstreamError_shapes|]. split; [reflexivity|].
  intros payload Hone Hdetails Hne.
  rewrite extractUpstreamError_shapes, alt_extractUpstreamError_shapes.
  unfold RouteAlt.strings_found in Hone. unfold error_shapes in *.
  by apply first_string_single.
Qed.

End TwoCopies.

Section TwoCopiesExamples.
Import Route Examples.

Lemma extractUpstreamError_copies_witness :
  extractUpstreamError (Some nested_error) = Some (lit "Invalid API key") /\
  RouteAlt.extractUpstreamError (Some nested_error) =
    Some (lit "Invalid API key").
Proof.
  destruct extractUpstreamError_copies as (_ & _ & Hsame).
  split; [reflexivity|].
  rewrite <- (Hsame nested_error).
  - reflexivity.
  - vm_compute. apply le_n.
  - reflexivity.
  - vm_compute. repeat constructor; discriminate.
Defined.

(** The two copies differ: with a string [error] next to a string
    [message] the route returns the error and the copy the message, and a
    string [details] alone is returned by the route and not seen by the
    copy. *)
Lemma extractUpstreamError_copies_differ :
  extractUpstreamError (Some error_and_message) = Some (lit "quota exceeded") /\
  RouteAlt.extractUpstreamError (Some error_and_message) =
    Some (lit "see details") /\
  extractUpstreamError (Some details_only) = Some (lit "workflow not found") /\
  RouteAlt.extractUpstreamError (Some details_only) = None /\
  extractUpstreamError (Some error_and_message) <>
    RouteAlt.extractUpstreamError (Some error_and_message).
Proof. vm_compute. repeat split; congruence. Qed.

(** An empty string ends the search of the copy: with an empty
    [error.message] next to a [message], the copy returns [null], not the
    message, and the route the empty string. *)
Lemma extractUpstreamError_empty_message :
  RouteAlt.getNestedMessage (Some empty_nested_message) = Some [] /\
  RouteAlt.extractUpstreamError (Some empty_nested_message) = None /\
  extractUpstreamError (Some empty_nested_message) = Some [].
Proof. vm_compute. repeat split; reflexivity. Qed.

End TwoCopiesExamples.

(** ** The client tools of the panel *)

Section WhiteSpace.

Implicit Types (s t : jstring) (c : N).

Lemma trimStart_app s t :
  trimStart (s ++ t) =
    if forallb is_whitespace s then trimStart t else trimStart s ++ t.
Proof.
  induction s as [|c s IH]; simpl; [done|].
  destruct (is_whitespace c); simpl; [exact IH|done].
Qed.

Lemma trimStart_all_whitespace s :
  forallb is_whitespace s = true -> trimStart s = [].
Proof.
  induction s as [|c s IH]; simpl; [done|].
  destruct (is_whitespace c); simpl; [exact IH|done].
Qed.

Lemma forallb_rev (f : N -> bool) s : forallb f (rev s) = forallb f s.
Proof.
  induction s as [|c s IH]; simpl; [done|].
  rewrite forallb_app, IH. simpl. rewrite andb_true_r. apply andb_comm.
Qed.

(** [trimEnd] without the reversals. *)
Lemma trimEnd_cons c s :
  trimEnd (c :: s) =
    if forallb is_whitespace (c :: s) then [] else c :: trimEnd s.
Proof.
  unfold trimEnd. simpl rev. rewrite trimStart_app, forallb_rev. simpl forallb.
  destruct (forallb is_whitespace s) eqn:Hs.
  - rewrite andb_true_r. simpl.
    rewrite trimStart_all_whitespace by (by rewrite forallb_rev).
    by destruct (is_whitespace c).
  - rewrite andb_false_r. rewrite rev_app_distr. reflexivity.
Qed.

Lemma trimEnd_nil : trimEnd [] = [].
Proof. reflexivity. Qed.

Lemma trimEnd_empty s : trimEnd s = [] <-> forallb is_whitespace s = true.
Proof.
  induction s as [|c s IH]; [done|].
  rewrite trimEnd_cons. destruct (forallb is_whitespace (c :: s)); split; done.
Qed.

End WhiteSpace.

Section Tools.
Import Panel.

Implicit Types (text : jstring) (c : N).

Lemma replace_ws_all_whitespace b text :
  forallb is_whitespace (replace_ws b text) = forallb is_whitespace text.
Proof.
  revert b. induction text as [|c text IH]; intros b; simpl; [done|].
  destruct (is_whitespace c) eqn:Hc; simpl.
  - destruct b; simpl; rewrite ?IH; done.
  - by rewrite Hc.
Qed.

Lemma words_empty text : words text = [] <-> forallb is_whitespace text = true.
Proof.
  induction text as [|c text IH]; simpl; [done|].
  destruct (is_whitespace c); simpl; [exact IH|].
  destruct text as [|d text]; [done|].
  destruct (is_whitespace d); [done|].
  destruct (words (d :: text)); done.
Qed.

Lemma join_cons_cons (sep : jstring) c (w : jstring) (ws : list jstring) :
  join sep ((c :: w) :: ws) = c :: join sep (w :: ws).
Proof. destruct ws; reflexivity. Qed.

Lemma trimEnd_replace_ws text :
  trimEnd (replace_ws true text) = single_spaced text /\
  trimEnd (replace_ws false text) =
    match text with
    | [] => []
    | c :: _ =>
        if is_whitespace c then
          if forallb is_whitespace text then [] else 32 :: single_spaced text
        else single_spaced text
    end.
Proof.
  unfold single_spaced.
  induction text as [|c text [IHt IHf]]; [done|].
  simpl replace_ws. simpl words.
  destruct (is_whitespace c) eqn:Hc.
  - split; [exact IHt|].
    rewrite trimEnd_cons. simpl forallb. rewrite Hc.
    rewrite replace_ws_all_whitespace, IHt. reflexivity.
  - assert (Hcons : forall b,
      trimEnd (c :: replace_ws b text) = c :: trimEnd (replace_ws b text)).
    { intros b. rewrite trimEnd_cons. simpl. by rewrite Hc. }
    rewrite Hcons, IHf.
    assert (Hgoal :
      c :: match text with
           | [] => []
           | c0 :: _ =>
               if is_whitespace c0
               then if forallb is_whitespace text then []
                    else 32 :: join [32] (words text)
               else join [32] (words text)
           end =
      join [32]
        match text with
        | [] => [[c]]
        | d :: _ =>
            if is_whitespace d then [c] :: words text
            else match words text with
                 | [] => [[c]]
                 | w :: ws => (c :: w) :: ws
                 end
        end).
    { destruct text as [|d text]; [done|].
      destruct (is_whitespace d) eqn:Hd.
      - destruct (forallb is_whitespace (d :: text)) eqn:Hall.
        + apply words_empty in Hall. by rewrite Hall.
        + destruct (words (d :: text)) eqn:Hw; [|done].
          apply words_empty in Hw. congruence.
      - destruct (words (d :: text)) as [|w ws] eqn:Hw.
        + apply words_empty in Hw. simpl in Hw. by rewrite Hd in Hw.
        + by rewrite join_cons_cons. }
    split; exact Hgoal.
Qed.

Lemma trimStart_replace_ws b text :
  trimStart (replace_ws b text) = replace_ws false (trimStart text).
Proof.
  revert b. induction text as [|c text IH]; intros b; simpl; [done|].
  destruct (is_whitespace c) eqn:Hc.
  - destruct b; simpl; by rewrite IH.
  - simpl. by rewrite Hc.
Qed.

Lemma words_trimStart text : words (trimStart text) = words text.
Proof.
  induction text as [|c text IH]; simpl; [done|].
  destruct (is_whitespace c) eqn:Hc; [exact IH|]. simpl. by rewrite Hc.
Qed.

Lemma trimStart_head text :
  match trimStart text with
  | [] => True
  | c :: _ => is_whitespace c = false
  end.
Proof.
  induction text as [|c text IH]; simpl; [done|].
  destruct (is_whitespace c) eqn:Hc; [exact IH|done].
Qed.

(** What the panel stores is the text with single spaces between its
    words. *)
Lemma normalized_text text :
  trim (replace_whitespace_runs text) = single_spaced text.
Proof.
  unfold trim, replace_whitespace_runs. rewrite trimStart_replace_ws.
  destruct (trimEnd_replace_ws (trimStart text)) as [_ ->].
  pose proof (trimStart_head text) as Hhead.
  unfold single_spaced. rewrite <- (words_trimStart text).
  destruct (trimStart text) as [|c rest]; [done|]. by rewrite Hhead.
Qed.

(** One invocation records at most one fact, a new one with a non-empty
    id. *)
Lemma onClientTool_step (facts : gset jstring) (inv : ClientToolInvocation) :
  let '(facts', effects, _) := onClientTool facts inv in
  (saved_ids effects = [] /\ facts' = facts) \/
  (exists id, saved_ids effects = [id] /\ id <> [] /\ (id ∉ facts) /\
              facts' = {[ id ]} ∪ facts).
Proof.
  unfold onClientTool.
  destruct (str_eqb (name inv) (lit "switch_theme")).
  { repeat case_bool_decide; left; done. }
  destruct (str_eqb (name inv) (lit "record_fact")); [|left; done].
  set (id := default [] (getStringParam (params inv) (lit "fact_id"))).
  destruct (str_truthy id) eqn:Hid; simpl; [|left; done].
  case_bool_decide; [left; done|].
  right. exists id. repeat split; try done. by destruct id.
Qed.

Lemma run_tools_saved (invocations : list ClientToolInvocation) :
  forall facts : gset jstring,
    NoDup (saved_ids (snd (run_tools facts invocations))) /\
    (forall id, id ∈ saved_ids (snd (run_tools facts invocations)) ->
                id <> [] /\ id ∉ facts).
Proof.
  induction invocations as [|inv rest IH]; intros facts; simpl.
  { split; [constructor|]. intros id Hin. by apply elem_of_nil in Hin. }
  pose proof (onClientTool_step facts inv) as Hstep.
  destruct (onClientTool facts inv) as [[facts1 effects1] result].
  specialize (IH facts1).
  destruct (run_tools facts1 rest) as [facts2 effects2]. simpl in *.
  unfold saved_ids in *. rewrite omap_app.
  destruct IH as [IHnodup IHnew].
  destruct Hstep as [[-> ->]|(id & -> & Hne & Hnew & ->)]; simpl.
  - split; done.
  - split.
    + constructor; [|done]. intros Hin.
      destruct (IHnew id Hin) as [_ Hout]. apply Hout.
      by apply elem_of_union_l, elem_of_singleton.
    + intros id' [->|Hin]%elem_of_cons; [done|].
      destruct (IHnew id' Hin) as [? Hout]. split; [done|].
      intros Hold. by apply Hout, elem_of_union_r.
Qed.

(** C5: [onClientTool] on [switch_theme] with the [theme] parameter
    ["light"] or ["dark"] calls [onThemeRequest] with that scheme and returns
    success, and with any other [theme] returns failure and calls nothing;
    on [record_fact] with a non-empty [fact_id] that is not yet in the
    processed set it calls [onWidgetAction] once, with type [save], that id
    and the fact text with its white-space runs collapsed to single spaces
    and trimmed, which is the text with single spaces between its words, and
    returns success; with any other name it returns failure and calls
    nothing. *)
Theorem onClientTool_effects (facts : gset jstring)
    (inv : ClientToolInvocation) :
  (name inv = lit "switch_theme" ->
     (get (params inv) (lit "theme") = Some (JStr (lit "light")) ->
        onClientTool facts inv =
          (facts, [onThemeRequest light], {| success := true |})) /\
     (get (params inv) (lit "theme") = Some (JStr (lit "dark")) ->
        onClientTool facts inv =
          (facts, [onThemeRequest dark], {| success := true |})) /\
     (get (params inv) (lit "theme") <> Some (JStr (lit "light")) ->
      get (params inv) (lit "theme") <> Some (JStr (lit "dark")) ->
        onClientTool facts inv = (facts, [], {| success := false |}))) /\
  (name inv = lit "record_fact" ->
     forall id, get (params inv) (lit "fact_id") = Some (JStr id) ->
       id <> [] -> id ∉ facts ->
       let text :=
         default [] (as_string (get (params inv) (lit "fact_text"))) in
       onClientTool facts inv =
         ({[ id ]} ∪ facts,
          [onWidgetAction
             {| type := save; factId := id;
                factText := trim (replace_whitespace_runs text) |}],
          {| success := true |}) /\
       trim (replace_whitespace_runs text) = single_spaced text) /\
  (name inv <> lit "switch_theme" -> name inv <> lit "record_fact" ->
     onClientTool facts inv = (facts, [], {| success := false |})).
Proof.
  unfold onClientTool, getStringParam, str_eqb. split; [|split].
  - intros ->. rewrite bool_decide_eq_true_2 by done.
    split; [|split].
    + intros ->. reflexivity.
    + intros ->. reflexivity.
    + intros Hlight Hdark.
      rewrite !bool_decide_eq_false_2; [done| |].
      * intros H. apply Hdark.
        destruct (get (params inv) (lit "theme")) as [[]|]; simplify_eq/=; done.
      * intros H. apply Hlight.
        destruct (get (params inv) (lit "theme")) as [[]|]; simplify_eq/=; done.
  - intros -> id -> Hne Hnew. cbv zeta. split; [|apply normalized_text].
    rewrite bool_decide_eq_false_2 by done.
    rewrite bool_decide_eq_true_2 by done. simpl default.
    replace (str_truthy id) with true by (by destruct id).
    by rewrite bool_decide_eq_false_2 by done.
  - intros Hswitch Hrecord. by rewrite !bool_decide_eq_false_2.
Qed.

(** C8: over any run of client-tool invocations on one processed-facts
    set, [onWidgetAction] is invoked at most once per fact id, only for
    non-empty ids, and never for an id that was already in the set; a
    [record_fact] whose [fact_id] is empty, missing or already processed
    returns success without invoking anything; and a thread change or a
    chat reset empties the set. *)
Theorem record_fact_once (facts : gset jstring)
    (invocations : list ClientToolInvocation) :
  (NoDup (saved_ids (snd (run_tools facts invocations))) /\
   forall id, id ∈ saved_ids (snd (run_tools facts invocations)) ->
              id <> [] /\ id ∉ facts) /\
  (forall inv,
     name inv = lit "record_fact" ->
     as_string (get (params inv) (lit "fact_id")) = None \/
     as_string (get (params inv) (lit "fact_id")) = Some [] \/
     (exists id, as_string (get (params inv) (lit "fact_id")) = Some id /\
                 id ∈ facts) ->
     onClientTool facts inv = (facts, [], {| success := true |})) /\
  (onThreadChange facts = ∅ /\
   forall b st, processedFacts (handleResetChat b st) = ∅).
Proof.
  split; [apply run_tools_saved|]. split; [|done].
  intros inv Hname Hid. unfold onClientTool, getStringParam, str_eqb.
  rewrite Hname. rewrite bool_decide_eq_false_2 by done.
  rewrite bool_decide_eq_true_2 by done.
  destruct Hid as [->|[->|(id & -> & Hin)]]; simpl; try done.
  rewrite bool_decide_eq_true_2 by done. by rewrite orb_true_r.
Qed.

End Tools.

Section ToolExamples.
Import Panel Examples.

Lemma onClientTool_effects_witness :
  onClientTool ∅ switch_to_dark =
    (∅, [onThemeRequest dark], {| success := true |}) /\
  onClientTool ∅ switch_to_sepia = (∅, [], {| success := false |}) /\
  onClientTool ∅ record_name =
    ({[ lit "f1" ]} ∪ ∅,
     [onWidgetAction {| type := save; factId := lit "f1";
                        factText := lit "Ada Lovelace" |}],
     {| success := true |}) /\
  onClientTool ∅ open_drawer = (∅, [], {| success := false |}).
Proof.
  destruct (onClientTool_effects ∅ switch_to_dark) as (Htheme & _ & _).
  destruct (onClientTool_effects ∅ switch_to_sepia) as (Hsepia & _ & _).
  destruct (onClientTool_effects ∅ record_name) as (_ & Hrecord & _).
  destruct (onClientTool_effects ∅ open_drawer) as (_ & _ & Hother).
  destruct Htheme as (_ & Hdark & _); [reflexivity|].
  destruct Hsepia as (_ & _ & Hnone); [reflexivity|].
  split; [|split; [|split]].
  - apply Hdark. reflexivity.
  - apply Hnone; vm_compute; discriminate.
  - destruct (Hrecord eq_refl (lit "f1")) as [Hsaved Htext];
      [reflexivity | discriminate | apply not_elem_of_empty |].
    rewrite Hsaved, Htext. reflexivity.
  - apply Hother; vm_compute; discriminate.
Defined.

Lemma record_fact_once_witness :
  onClientTool ({[ lit "f1" ]} : gset jstring) record_name =
    ({[ lit "f1" ]}, [], {| success := true |}) /\
  onClientTool ∅ record_without_id = (∅, [], {| success := true |}).
Proof.
  destruct (record_fact_once {[ lit "f1" ]} []) as (_ & Hseen & _).
  destruct (record_fact_once ∅ []) as (_ & Hmissing & _).
  split.
  - apply Hseen; [reflexivity|]. right. right. exists (lit "f1").
    split; [reflexivity|]. apply elem_of_singleton. reflexivity.
  - apply Hmissing; [reflexivity|]. left. reflexivity.
Defined.

End ToolExamples.

(** ** getClientSecret and the mounted flag *)

Section Unmount.
Import Panel.

Lemma updates_only_while_mounted_app b t1 t2 :
  updates_only_while_mounted b (t1 ++ t2) =
    updates_only_while_mounted b t1 &&
    updates_only_while_mounted (mounted_after b t1) t2.
Proof.
  revert b. induction t1 as [|e t1 IH]; intros b; simpl; [done|].
  destruct e; rewrite IH; simpl; [done| |]; by rewrite andb_assoc.
Qed.

Lemma mounted_after_app b t1 t2 :
  mounted_after b (t1 ++ t2) = mounted_after (mounted_after b t1) t2.
Proof.
  revert b. induction t1 as [|e t1 IH]; intros b; simpl; [done|].
  destruct e; by rewrite IH.
Qed.

Lemma mounted_after_false t : mounted_after false t = false.
Proof. induction t as [|[] t IH]; simpl; done. Qed.

(** Running [m2] where [m] stopped. *)
Lemma respects_unmount_then {A B C} (m : M A) (m2 : M B) (m3 : M C) w :
  respects_unmount m w ->
  respects_unmount m2 (fst (m w)) ->
  fst (m3 w) = fst (m2 (fst (m w))) ->
  respects_unmount m3 w.
Proof.
  intros (t1 & Ht1 & Hok1 & Hm1 & Hfrozen1)
         (t2 & Ht2 & Hok2 & Hm2 & Hfrozen2) Heq.
  exists (t1 ++ t2). rewrite Heq, Ht2, Ht1, app_assoc.
  rewrite updates_only_while_mounted_app, mounted_after_app, Hok1.
  rewrite <- Hm1, Hok2, Hm2. do 3 (split; [done|]).
  intros Hoff. rewrite Hoff, mounted_after_false in Hm1.
  destruct (Hfrozen2 Hm1) as [-> ->]. by apply Hfrozen1.
Qed.

Lemma respects_unmount_stop {A B} (m : M A) (m3 : M B) w :
  respects_unmount m w -> fst (m3 w) = fst (m w) -> respects_unmount m3 w.
Proof.
  intros (t1 & Ht1 & Hok1 & Hm1 & Hfrozen1) Heq.
  exists t1. by rewrite Heq.
Qed.

Lemma respects_unmount_seq {A B} (m : M A) (k : A -> M B) w :
  respects_unmount m w ->
  (forall a w', m w = (w', inr a) -> respects_unmount (k a) w') ->
  respects_unmount (bind m k) w.
Proof.
  intros Hm Hk. destruct (m w) as [w1 [e|a]] eqn:Hmw.
  - apply (respects_unmount_stop m); [done|]. unfold bind. by rewrite Hmw.
  - apply (respects_unmount_then m (k a)); [done| |].
    + rewrite Hmw. by apply Hk.
    + unfold bind. by rewrite Hmw.
Qed.

Lemma disciplined_bind {A B} (m : M A) (k : A -> M B) :
  disciplined m -> (forall a, disciplined (k a)) -> disciplined (bind m k).
Proof.
  intros Hm Hk w. apply respects_unmount_seq; [apply Hm|].
  intros a w' _. apply Hk.
Qed.

Lemma disciplined_quiet {A} (m : M A) :
  (forall w, fst (m w) = w) -> disciplined m.
Proof.
  intros Hm w. exists []. rewrite Hm, app_nil_r. by repeat split.
Qed.

Lemma disciplined_ret {A} (a : A) : disciplined (ret a).
Proof. by apply disciplined_quiet. Qed.

Lemma disciplined_throw {A} (e : Exn) : disciplined (@throw A e).
Proof. by apply disciplined_quiet. Qed.

Lemma disciplined_guarded {A} b (m : M A) : disciplined m -> guarded b m.
Proof. intros Hm w _. apply Hm. Qed.

Lemma disciplined_try_catch {A} (body : M A) (handler : Exn -> M A) :
  disciplined body -> (forall e, disciplined (handler e)) ->
  disciplined (try_catch body handler).
Proof.
  intros Hbody Hhandler w. destruct (body w) as [w1 [e|a]] eqn:Hw.
  - apply (respects_unmount_then body (handler e)); [apply Hbody| |].
    + apply Hhandler.
    + unfold try_catch. by rewrite Hw.
  - apply (respects_unmount_stop body); [apply Hbody|].
    unfold try_catch. by rewrite Hw.
Qed.

Lemma disciplined_try_finally {A} (body : M A) (final : M unit) :
  disciplined body -> disciplined final ->
  disciplined (try_finally body final).
Proof.
  intros Hbody Hfinal w.
  apply (respects_unmount_then body final); [apply Hbody|apply Hfinal|].
  unfold try_finally. destruct (body w) as [w1 r]. simpl.
  destruct (final w1) as [w2 [e|[]]]; reflexivity.
Qed.

Lemma disciplined_unmount : disciplined unmount.
Proof.
  intros w. exists [Unmounted]. by repeat split.
Qed.

Lemma disciplined_when (c : bool) (m : M unit) :
  disciplined m -> disciplined (when c m).
Proof. destruct c; [done|]. intros _. apply disciplined_ret. Qed.

Lemma disciplined_await {A} (unmounts : bool) (settled : Exn + A) :
  disciplined (await unmounts settled).
Proof.
  unfold await. apply disciplined_bind.
  - apply disciplined_when, disciplined_unmount.
  - intros _. destruct settled; [apply disciplined_throw|apply disciplined_ret].
Qed.

(** The two setters are fine where the component is mounted, and leave it
    mounted. *)
Lemma guarded_setErrorState (updates : ErrorUpdates) :
  guarded true (setErrorState updates).
Proof.
  intros w Hon. exists [SetErrorState updates]. simpl. rewrite Hon.
  by repeat split.
Qed.

Lemma guarded_setIsInitializingSession (b : bool) :
  guarded true (setIsInitializingSession b).
Proof.
  intros w Hon. exists [SetIsInitializingSession b]. simpl. rewrite Hon.
  by repeat split.
Qed.

Lemma guarded_when (b c : bool) (m : M unit) :
  guarded true m -> guarded b (when (b && c) m).
Proof.
  intros Hm. destruct b, c; simpl; try done;
    apply disciplined_guarded, disciplined_ret.
Qed.

Lemma guarded_when_mounted (b : bool) (m : M unit) :
  guarded true m -> guarded b (when b m).
Proof.
  intros Hm. destruct b; simpl; [done|].
  apply disciplined_guarded, disciplined_ret.
Qed.

Lemma guarded_true_when (c : bool) (m : M unit) :
  guarded true m -> guarded true (when c m).
Proof.
  intros Hm. destruct c; simpl; [done|].
  apply disciplined_guarded, disciplined_ret.
Qed.

(** Two steps in a row while mounted, when the first leaves the component
    mounted. *)
Lemma guarded_true_seq (m : M unit) (k : M unit) :
  guarded true m ->
  (forall w w' r, m w = (w', r) ->
                  isMountedRef (panel w') = isMountedRef (panel w)) ->
  guarded true k ->
  guarded true (bind m (fun _ => k)).
Proof.
  intros Hm Hkeep Hk w Hon. apply respects_unmount_seq; [by apply Hm|].
  intros [] w' Hw. apply Hk. by rewrite (Hkeep w w' _ Hw).
Qed.

Lemma guarded_then {A B} b (m : M A) (k : A -> M B) :
  guarded b m -> (forall a, disciplined (k a)) -> guarded b (bind m k).
Proof.
  intros Hm Hk w Hb. apply respects_unmount_seq; [by apply Hm|].
  intros a w' _. apply Hk.
Qed.

(** Reading [isMountedRef.current] and going on with its value. *)
Lemma disciplined_isMounted {A} (k : bool -> M A) :
  (forall b, guarded b (k b)) -> disciplined (bind isMounted k).
Proof.
  intros Hk w. apply respects_unmount_seq.
  - exists []. rewrite app_nil_r. by repeat split.
  - intros b w' [= <- <-]. by apply Hk.
Qed.

Lemma setErrorState_keeps_mounted updates w w' r :
  setErrorState updates w = (w', r) ->
  isMountedRef (panel w') = isMountedRef (panel w).
Proof. by intros [= <- <-]. Qed.

Lemma setIsInitializingSession_keeps_mounted b w w' r :
  setIsInitializingSession b w = (w', r) ->
  isMountedRef (panel w') = isMountedRef (panel w).
Proof. by intros [= <- <-]. Qed.

Lemma when_keeps_mounted (c : bool) (m : M unit) :
  (forall w w' r, m w = (w', r) ->
                  isMountedRef (panel w') = isMountedRef (panel w)) ->
  forall w w' r, when c m w = (w', r) ->
                 isMountedRef (panel w') = isMountedRef (panel w).
Proof. destruct c; [done|]. by intros _ w w' r [= <- <-]. Qed.

Lemma getClientSecret_disciplined env currentSecret :
  disciplined (getClientSecret env currentSecret).
Proof.
  unfold getClientSecret, mbind, M_bind.
  destruct (isWorkflowConfigured env); simpl negb; cbv iota.
  - apply disciplined_isMounted. intros b. apply guarded_then.
    { apply guarded_when_mounted. apply guarded_true_seq.
      - apply guarded_true_when, guarded_setIsInitializingSession.
      - apply when_keeps_mounted, setIsInitializingSession_keeps_mounted.
      - apply guarded_setErrorState. }
    intros _. apply disciplined_try_finally.
    + apply disciplined_try_catch.
      * apply disciplined_bind; [apply disciplined_await|]. intros response.
        apply disciplined_bind; [apply disciplined_await|]. intros raw.
        cbv zeta. destruct (ok response); simpl negb; cbv iota;
          [|apply disciplined_throw].
        destruct (as_string _) as [secret|]; [|apply disciplined_throw].
        destruct (_ =? _)%nat; [apply disciplined_throw|].
        apply disciplined_isMounted. intros b'. apply guarded_then.
        { apply guarded_when_mounted, guarded_setErrorState. }
        intros _. apply disciplined_ret.
      * intros error. cbv zeta. apply disciplined_isMounted. intros b'.
        apply guarded_then.
        { apply guarded_when_mounted, guarded_setErrorState. }
        intros _. apply disciplined_throw.
    + apply disciplined_isMounted. intros b'.
      apply guarded_when, guarded_setIsInitializingSession.
  - cbv zeta. apply disciplined_isMounted. intros b. apply guarded_then.
    { apply guarded_when_mounted. apply guarded_true_seq.
      - apply guarded_setErrorState.
      - apply setErrorState_keeps_mounted.
      - apply guarded_setIsInitializingSession. }
    intros _. apply disciplined_throw.
Qed.

(** C7: whatever the configuration, the outcome of the session fetch and
    the moment the component unmounts, [getClientSecret] calls
    [setErrorState] and [setIsInitializingSession] only while
    [isMountedRef.current] is true: in the trace of a call no update follows
    an unmount, and a call that starts unmounted updates nothing and leaves
    the error state and the initializing flag as they were. *)
Theorem getClientSecret_after_unmount (env : Surroundings)
    (currentSecret : option jstring) (w : World) :
  let w' := fst (getClientSecret env currentSecret w) in
  exists t,
    trace w' = trace w ++ t /\
    updates_only_while_mounted (isMountedRef (panel w)) t = true /\
    (isMountedRef (panel w) = false ->
       isMountedRef (panel w') = false /\
       errors (panel w') = errors (panel w) /\
       isInitializingSession (panel w') = isInitializingSession (panel w)).
Proof.
  destruct (getClientSecret_disciplined env currentSecret w)
    as (t & Ht & Hok & Hmounted & Hfrozen).
  exists t. do 2 (split; [done|]). intros Hoff.
  split; [|by apply Hfrozen].
  by rewrite Hmounted, Hoff, mounted_after_false.
Qed.

End Unmount.

Section UnmountExamples.
Import Panel Examples.

Lemma getClientSecret_after_unmount_witness :
  errors (panel (fst (getClientSecret unmounts_in_flight None unmounted_world)))
    = createInitialErrors /\
  isInitializingSession
    (panel (fst (getClientSecret unmounts_in_flight None unmounted_world)))
    = true.
Proof.
  destruct (getClientSecret_after_unmount unmounts_in_flight None
              unmounted_world) as (t & _ & _ & Hfrozen).
  destruct Hfrozen as (_ & Herrors & Hinit); [reflexivity|].
  split; [exact Herrors | exact Hinit].
Defined.

(** A call during which the component unmounts: the two updates of the
    start, the unmount, and nothing after it, although the fetch succeeds. *)
Lemma getClientSecret_unmounted_in_flight :
  getClientSecret unmounts_in_flight None initial_world =
    ({| panel :=
          {| processedFacts := ∅;
             errors := createInitialErrors;
             isInitializingSession := true;
             isMountedRef := false;
             scriptStatus := ready;
             widgetInstanceKey := 0 |};
        trace := [
          SetIsInitializingSession true;
          SetErrorState {| set_script := None; set_session := Some None;
                           set_integration := Some None;
                           set_retryable := Some false |};
          Unmounted
        ] |},
     inr (lit "cs_1")).
Proof. reflexivity. Qed.

(** An update after the unmount is what the trace check refuses. *)
Example update_after_unmount_refused :
  updates_only_while_mounted true
    [SetIsInitializingSession true; Unmounted; SetIsInitializingSession false]
    = false.
Proof. reflexivity. Qed.

End UnmountExamples.

(** ** What the panel renders *)

Section Render.
Import Panel Examples.

(** C6: where the panel departs from the claim.  The widget is hidden
    exactly when the blocking error is a non-empty string or the session is
    being initialized, the overlay is given the blocking error, and it is
    given [Loading assistant session...] as its fallback exactly when there
    is no non-empty blocking error and the session is being initialized:
    all three tests are [blockingError || ...].  So after a first session
    request that fails with an empty message (the endpoint answers 500 with
    an empty status text and nothing to read), [getClientSecret] rejects,
    stores the empty message as the session error and ends the
    initialization: a blocking error is there, it is not [null], and yet
    the widget is shown and the overlay is given the empty error and no
    fallback message. *)
Theorem render_after_silent_failure :
  (forall st,
     hidden (render st) =
       opt_truthy (blockingError (errors st)) || isInitializingSession st /\
     error_prop (overlay (render st)) = blockingError (errors st) /\
     fallbackMessage (overlay (render st)) =
       if negb (opt_truthy (blockingError (errors st))) &&
          isInitializingSession st
       then Some (lit "Loading assistant session...") else None) /\
  let after := getClientSecret endpoint_fails_silently None initial_world in
  snd after = inl (Error []) /\
  isMountedRef (panel (fst after)) = true /\
  session (errors (panel (fst after))) = Some [] /\
  blockingError (errors (panel (fst after))) = Some [] /\
  isInitializingSession (panel (fst after)) = false /\
  hidden (render (panel (fst after))) = false /\
  chatkit_className (render (panel (fst after))) = lit "block h-full w-full" /\
  error_prop (overlay (render (panel (fst after)))) = Some [] /\
  fallbackMessage (overlay (render (panel (fst after)))) = None.
Proof.
  split.
  - intros st. unfold render, hidden.
    cbn [chatkit_className overlay error_prop fallbackMessage].
    destruct (opt_truthy (blockingError (errors st)));
      destruct (isInitializingSession st); repeat split; reflexivity.
  - vm_compute. repeat split; reflexivity.
Qed.

End Render.

(* ====================================================================== *)
(** * Further properties *)
(* ====================================================================== *)

(** ** The cookie, whatever the visitor id *)

Section CookieEncoded.
Import Route.

Lemma hex_digit_unescaped n : n < 16 -> uriUnescaped (hex_digit n) = true.
Proof.
  intros Hn. destruct n as [|p]; [reflexivity|].
  do 4 (try destruct p as [p|p|]); try reflexivity; lia.
Qed.

Lemma percent_uri_chars b : b < 256 -> Forall uri_char (percent b).
Proof.
  intros Hb. unfold percent.
  assert (b / 16 < 16) by (apply N.Div0.div_lt_upper_bound; lia).
  assert (b mod 16 < 16) by (apply N.mod_lt; lia).
  apply List.Forall_cons; [by right|].
  apply List.Forall_cons; [left; by apply hex_digit_unescaped|].
  apply List.Forall_cons; [left; by apply hex_digit_unescaped|].
  apply List.Forall_nil.
Qed.

Lemma utf8_octets cp : cp < 0x110000 -> Forall (fun b => b < 256) (utf8 cp).
Proof.
  intros Hcp. unfold utf8.
  repeat case_match;
    repeat match goal with
           | H : (_ <? _) = true |- _ => apply N.ltb_lt in H
           | H : (_ <? _) = false |- _ => apply N.ltb_ge in H
           end;
    repeat constructor;
    repeat match goal with
           | |- context [?a mod 64] =>
               lazymatch goal with
               | _ : a mod 64 < 64 |- _ => fail
               | _ => assert (a mod 64 < 64) by (apply N.mod_lt; lia)
               end
           end;
    try lia.
  - assert (cp / 64 < 32) by (apply N.Div0.div_lt_upper_bound; lia). lia.
  - assert (cp / 4096 < 16) by (apply N.Div0.div_lt_upper_bound; lia). lia.
  - assert (cp / 262144 < 5) by (apply N.Div0.div_lt_upper_bound; lia). lia.
Qed.

Lemma escape_uri_chars cp : cp < 0x110000 -> Forall uri_char (escape cp).
Proof.
  intros Hcp. unfold escape. apply Forall_concat, Forall_fmap.
  eapply Forall_impl; [by apply utf8_octets|]. apply percent_uri_chars.
Qed.

Lemma encodeURIComponent_uri_chars_n (n : nat) (s t : jstring) :
  (length s <= n)%nat -> utf16 s -> encodeURIComponent s = Some t ->
  Forall uri_char t.
Proof.
  revert s t. induction n as [|n IH]; intros s t Hn Hs.
  - destruct s; [|simpl in Hn; lia]. intros [= <-]. constructor.
  - destruct s as [|c s]; [intros [= <-]; constructor|].
    apply Forall_cons in Hs as [Hc Hs]. simpl in Hn. simpl.
    destruct (uriUnescaped c) eqn:Hun.
    { destruct (encodeURIComponent s) as [t'|] eqn:E; [|done].
      intros [= <-]. constructor; [by left|]. apply (IH s); [lia|done|done]. }
    destruct (is_high_surrogate c) eqn:Hhigh.
    { destruct s as [|d s]; [done|].
      destruct (is_low_surrogate d) eqn:Hlow; [|done].
      destruct (encodeURIComponent s) as [t'|] eqn:E; [|done].
      intros [= <-]. apply Forall_cons in Hs as [Hd Hs]. simpl in Hn.
      apply Forall_app. split; [|apply (IH s); [lia|done|done]].
      apply escape_uri_chars.
      unfold is_high_surrogate, is_low_surrogate in *.
      apply andb_true_iff in Hhigh as [?%N.leb_le ?%N.leb_le].
      apply andb_true_iff in Hlow as [?%N.leb_le ?%N.leb_le]. lia. }
    destruct (is_low_surrogate c); [done|].
    destruct (encodeURIComponent s) as [t'|] eqn:E; [|done].
    intros [= <-]. apply Forall_app. split; [|apply (IH s); [lia|done|done]].
    apply escape_uri_chars. lia.
Qed.

Lemma uri_char_plain c :
  uri_char c -> is_whitespace c = false /\ c <> 59 /\ c <> 61.
Proof.
  intros [Hc| ->]; [|by vm_compute].
  split; [by apply uriUnescaped_not_whitespace|].
  split; intros ->; discriminate.
Qed.

Lemma serializeSessionCookie_encoded env v e :
  encodeURIComponent v = Some e ->
  exists rest,
    serializeSessionCookie env v =
      Some ((SESSION_COOKIE_NAME ++ 61 :: e) ++ 59 :: rest).
Proof.
  intros He. unfold serializeSessionCookie. rewrite He. simpl.
  destruct (bool_decide (NODE_ENV env = Some (lit "production")));
    eexists; simpl; rewrite <- ?app_assoc; reflexivity.
Qed.

(** X1.  For every JavaScript string [v]: [serializeSessionCookie] throws
    exactly when [encodeURIComponent v] does, and otherwise
    [getCookieValue] reads from the cookie it writes the encoded value, not
    decoded: that is [v] itself exactly when [v] has unescaped characters
    only. *)
Theorem cookie_roundtrip_encoded (env : Env) (v : jstring) :
  utf16 v ->
  (serializeSessionCookie env v = None <-> encodeURIComponent v = None) /\
  (forall e, encodeURIComponent v = Some e ->
     exists header,
       serializeSessionCookie env v = Some header /\
       getCookieValue (Some header) SESSION_COOKIE_NAME = Some e /\
       (e = v <-> Forall (fun c => uriUnescaped c = true) v)).
Proof.
  intros Hv. split.
  - unfold serializeSessionCookie.
    destruct (encodeURIComponent v); simpl; split; done.
  - intros e He.
    destruct (serializeSessionCookie_encoded env v e He) as [rest ->].
    eexists. split; [reflexivity|].
    pose proof (encodeURIComponent_uri_chars_n (length v) v e (le_n _) Hv He)
      as Hchars.
    split.
    + apply getCookieValue_first.
      * done.
      * apply (bool_decide_unpack _). by vm_compute.
      * apply (bool_decide_unpack _). by vm_compute.
      * intros Hin. rewrite Forall_forall in Hchars.
        by destruct (uri_char_plain _ (Hchars _ Hin)) as (_ & ? & _).
      * intros Hin. rewrite Forall_forall in Hchars.
        by destruct (uri_char_plain _ (Hchars _ Hin)) as (_ & _ & ?).
      * apply (bool_decide_unpack _). by vm_compute.
      * eapply Forall_impl; [exact Hchars|].
        intros c Hc. by destruct (uri_char_plain c Hc).
    + split.
      * intros ->. by apply encodeURIComponent_fixed.
      * intros Hun. rewrite (encodeURIComponent_unescaped v Hun) in He.
        by injection He.
Qed.

End CookieEncoded.

Section CookieEncodedExamples.
Import Route Examples.

Lemma cookie_roundtrip_encoded_witness :
  exists header,
    serializeSessionCookie env odd_id = Some header /\
    getCookieValue (Some header) SESSION_COOKIE_NAME =
      Some (lit "a%20b%3Bc%3Dd").
Proof.
  destruct (cookie_roundtrip_encoded env odd_id) as [_ Hencoded].
  { apply (bool_decide_unpack _). vm_compute. exact I. }
  destruct (Hencoded (lit "a%20b%3Bc%3Dd")) as (header & Hheader & Hback & _).
  { vm_compute. reflexivity. }
  exists header. split; [exact Hheader | exact Hback].
Defined.

End CookieEncodedExamples.

(** ** More on the session route *)

Section PostMore.
Import Route.

Variable (env : Env) (fetch : FetchCall -> FetchOutcome) (request : Request).

Lemma nullish_or_non_nullish (a b : option value) :
  nullish_or a b = if non_nullish a then a else b.
Proof. by destruct a as [[]|]. Qed.


Lemma ok_status_200 (r : UpstreamResponse) : status r = 200 -> ok r = true.
Proof. unfold ok. by intros ->. Qed.


(** X3.  The endpoint calls upstream at most once, and not at all without
    an API key; it answers 200 exactly when it made the call and upstream
    answered ok; and its status is always 200, 400, 500 or the status of a
    non-ok upstream answer. *)
Theorem POST_status :
  (snd (POST env fetch request) = [] \/
   exists call, snd (POST env fetch request) = [call]) /\
  (opt_truthy (OPENAI_API_KEY env) = false ->
     snd (POST env fetch request) = [] /\
     res_status (fst (POST env fetch request)) = 500) /\
  (res_status (fst (POST env fetch request)) = 200 <->
     exists call r,
       snd (POST env fetch request) = [call] /\
       fetch call = Resolved r /\ ok r = true) /\
  (res_status (fst (POST env fetch request)) = 200 \/
   res_status (fst (POST env fetch request)) = 400 \/
   res_status (fst (POST env fetch request)) = 500 \/
   exists call r,
     snd (POST env fetch request) = [call] /\
     fetch call = Resolved r /\ ok r = false /\
     res_status (fst (POST env fetch request)) = status r).
Proof.
  unfold POST.
  destruct (opt_truthy (OPENAI_API_KEY env)); simpl negb; cbv iota.
  2:{ cbn [fst snd]. split; [by left|]. split; [done|].
      split; [|by right; right; left].
      split; [done|]. by intros (call & r & [=] & _). }
  cbv zeta.
  destruct (resolveUserId env request) as [[userId sessionCookie]|].
  2:{ cbn [fst snd]. split; [by left|]. split; [done|].
      split; [|by right; right; left].
      split; [done|]. by intros (call & r & [=] & _). }
  destruct (truthy (nullish_or _ _)); simpl negb; cbv iota.
  2:{ cbn [fst snd]. split; [by left|]. split; [done|].
      split; [|by right; left].
      split; [done|]. by intros (call & r & [=] & _). }
  match goal with |- context [fetch ?c] => set (the_call := c) end.
  destruct (fetch the_call) as [|r] eqn:Hfetch;
    [|destruct (ok r) eqn:Hok; simpl negb; cbv iota]; cbn [fst snd].
  - split; [right; by eexists|]. split; [done|].
    split; [|by right; right; left].
    split; [done|]. intros (call & r & [= <-] & Hr & _). congruence.
  - split; [right; by eexists|]. split; [done|].
    split; [|by left]. split; [|done]. intros _. by exists the_call, r.
  - split; [right; by eexists|]. split; [done|].
    unfold json_response.
    destruct (accepts_status (status r)); cbn [try_return].
    + split; [|right; right; right; by exists the_call, r].
      split.
      * cbn. intros Hstatus. apply ok_status_200 in Hstatus. congruence.
      * intros (call & r' & [= <-] & Hr & Hok'). congruence.
    + split; [|by right; right; left].
      split; [done|]. intros (call & r' & [= <-] & Hr & Hok'). congruence.
Qed.

(** X4.  Every response of the endpoint has the JSON content type as its
    first header, followed by at most one [Set-Cookie] header and nothing
    else. *)
Theorem POST_headers :
  exists cookies,
    (length cookies <= 1)%nat /\
    res_headers (fst (POST env fetch request)) = json_headers cookies /\
    set_cookies (fst (POST env fetch request)) = cookies.
Proof.
  destruct (POST_shape env fetch request)
    as (payload & st & sessionCookie & -> & _).
  unfold json_built, json_headers.
  destruct sessionCookie as [c|]; [destruct (str_truthy c)|].
  - exists [c]. repeat split; simpl; lia.
  - exists []. repeat split; simpl; lia.
  - exists []. repeat split; simpl; lia.
Qed.

End PostMore.

Section KeyKeptServerSide.
Import Route.

(** X5.  The handler uses the API key in the [Authorization] header of
    its upstream call and nowhere else: under two keys the upstream calls
    are the same but for that header, and when upstream settles the two
    calls in the same way the two responses are the same.  What upstream
    answers is passed on, so nothing is said here of an upstream whose
    answer depends on the key. *)
Theorem POST_key_only_upstream (env : Env) (key1 key2 : jstring)
    (fetch1 fetch2 : FetchCall -> FetchOutcome) (request : Request) :
  str_truthy key1 = true -> str_truthy key2 = true ->
  let run1 := POST (with_key (Some key1) env) fetch1 request in
  let run2 := POST (with_key (Some key2) env) fetch2 request in
  snd run2 = map (authorized key2) (snd run1) /\
  snd run1 = map (authorized key1) (snd run1) /\
  ((forall call1 call2,
      call1 ∈ snd run1 -> call2 ∈ snd run2 -> fetch1 call1 = fetch2 call2) ->
   fst run1 = fst run2).
Proof.
  intros Hkey1 Hkey2. cbv zeta. unfold POST.
  cbn [with_key OPENAI_API_KEY CHATKIT_API_BASE WORKFLOW_ID opt_truthy].
  rewrite Hkey1, Hkey2. cbn [negb]. cbv zeta.
  change (resolveUserId (with_key (Some key1) env) request)
    with (resolveUserId env request).
  change (resolveUserId (with_key (Some key2) env) request)
    with (resolveUserId env request).
  destruct (resolveUserId env request) as [[userId sessionCookie]|]; [|done].
  destruct (truthy (nullish_or _ _)); cbn [negb]; [|done].
  match goal with |- context [fetch1 ?c] => set (call1 := c) end.
  match goal with |- context [fetch2 ?c] => set (call2 := c) end.
  split; [|split].
  - destruct (fetch1 call1) as [|r1]; [|destruct (ok r1)];
      destruct (fetch2 call2) as [|r2]; try destruct (ok r2); reflexivity.
  - destruct (fetch1 call1) as [|r1]; [|destruct (ok r1)]; reflexivity.
  - intros Hsame.
    assert (Hfetch : fetch1 call1 = fetch2 call2).
    { apply Hsame.
      - destruct (fetch1 call1) as [|r]; [|destruct (ok r)]; cbn; by left.
      - destruct (fetch2 call2) as [|r]; [|destruct (ok r)]; cbn; by left. }
    rewrite Hfetch.
    destruct (fetch2 call2) as [|r]; [done|]. by destruct (ok r).
Qed.

End KeyKeptServerSide.

Section PostMoreExamples.
Import Route Examples.


Lemma POST_status_witness :
  snd (POST env_without_key (answers session_created) first_visit) = [] /\
  res_status (fst (POST env_without_key (answers session_created) first_visit))
    = 500.
Proof.
  destruct (POST_status env_without_key (answers session_created) first_visit)
    as (_ & Hnokey & _).
  apply Hnokey. reflexivity.
Defined.

Lemma POST_key_only_upstream_witness :
  fst (POST (with_key (Some (lit "sk-test")) env) (answers unauthorized)
            first_visit) =
  fst (POST (with_key (Some (lit "sk-other")) env) (answers unauthorized)
            first_visit).
Proof.
  apply POST_key_only_upstream; [reflexivity | reflexivity |].
  intros call1 call2 _ _. reflexivity.
Defined.

End PostMoreExamples.

(** ** The second copy of the route, as a whole *)

Section CopyOfPost.
Import Route.

Variable (env : Env) (fetch : FetchCall -> FetchOutcome) (request : Request).

(** The two copies make the same upstream calls. *)
Lemma alt_POST_calls :
  snd (RouteAlt.POST env fetch request) = snd (POST env fetch request).
Proof.
  unfold RouteAlt.POST, POST.
  destruct (opt_truthy (OPENAI_API_KEY env)); cbn [negb]; [|done].
  cbv zeta.
  destruct (resolveUserId env request) as [[userId sessionCookie]|]; [|done].
  destruct (truthy (nullish_or _ _)); cbn [negb]; [|done].
  match goal with |- context [fetch ?c] => set (the_call := c) end.
  destruct (fetch the_call) as [|r]; [done|].
  destruct (ok r); cbn [negb]; [done|]. unfold json_response.
  by destruct (accepts_status (status r)).
Qed.

(** X6.  The two copies of [POST] make the same upstream calls and answer
    with the same status and the same headers, cookie included; they can
    differ in the body of the response only. *)
Theorem POST_copies_agree :
  snd (RouteAlt.POST env fetch request) = snd (POST env fetch request) /\
  res_status (fst (RouteAlt.POST env fetch request)) =
    res_status (fst (POST env fetch request)) /\
  res_headers (fst (RouteAlt.POST env fetch request)) =
    res_headers (fst (POST env fetch request)).
Proof.
  unfold RouteAlt.POST, POST.
  destruct (opt_truthy (OPENAI_API_KEY env)); cbn [negb]; [|done].
  cbv zeta.
  destruct (resolveUserId env request) as [[userId sessionCookie]|]; [|done].
  destruct (truthy (nullish_or _ _)); cbn [negb]; [|done].
  match goal with |- context [fetch ?c] => set (the_call := c) end.
  destruct (fetch the_call) as [|r]; [done|].
  destruct (ok r); cbn [negb]; [done|]. unfold json_response.
  by destruct (accepts_status (status r)).
Qed.

Lemma alt_POST_called call :
  snd (RouteAlt.POST env fetch request) = [call] ->
  exists sessionCookie,
    fst (RouteAlt.POST env fetch request) =
      match fetch call with
      | Rejected => unexpected sessionCookie
      | Resolved r =>
          let upstreamJson := default (JObj []) (json r) in
          if ok r then
            json_built
              (JObj [(lit "client_secret",
                      RouteAlt.string_or_null
                        (get upstreamJson (lit "client_secret")));
                     (lit "expires_after",
                      RouteAlt.number_or_string_or_null
                        (get upstreamJson (lit "expires_after")))])
              200 None sessionCookie
          else if accepts_status (status r) then
            json_built
              (JObj [(lit "error",
                      JStr (default
                              (lit "Failed to create session: " ++
                               decimal (status r) ++ lit " " ++ statusText r)
                              (RouteAlt.extractUpstreamError
                                 (Some upstreamJson))))])
              (status r) None sessionCookie
          else unexpected sessionCookie
      end.
Proof.
  unfold RouteAlt.POST.
  destruct (opt_truthy (OPENAI_API_KEY env)); cbn [negb]; [|done].
  cbv zeta.
  destruct (resolveUserId env request) as [[userId sessionCookie]|]; [|done].
  destruct (truthy (nullish_or _ _)); cbn [negb]; [|done].
  match goal with |- context [fetch ?c] => set (the_call := c) end.
  destruct (fetch the_call) as [|r] eqn:Hfetch;
    [|destruct (ok r) eqn:Hok; cbn [negb]];
    cbn [snd fst]; intros [= Hc]; rewrite <- Hc; exists sessionCookie;
    rewrite Hfetch, ?Hok; try done.
  - cbv zeta. change (json_response ?p 200 ?h ?c)
      with (Some (json_built p 200 h c)). cbn [try_return]. f_equal.
    destruct (json r) as [j|]; [|done]. cbn [default].
    unfold RouteAlt.toChatKitSessionResponse, RouteAlt.isRecord.
    destruct j as [| | | | |props]; try done.
    cbn -[lit]. by destruct (prop (lit "client_secret") props) as [[]|],
      (prop (lit "expires_after") props) as [[]|].
  - cbv zeta. unfold json_response.
    destruct (accepts_status (status r)); [|done]. by destruct (json r).
Qed.

Lemma string_or_null_written (v : option value) :
  JSON_stringify (RouteAlt.string_or_null v) = RouteAlt.string_or_null v.
Proof. by destruct v as [[]|]. Qed.

(** X7.  On an ok upstream answer the copy in [part_000] returns a
    [client_secret] only when upstream gave a string and an [expires_after]
    only when upstream gave a number or a string, [null] otherwise, each as
    [JSON.stringify] writes it; its body is that of [route.ts], which
    writes whatever upstream gave, exactly when the [client_secret] that
    [route.ts] writes is a string or [null] (it writes [null] for a number
    that is not finite) and the upstream [expires_after] is a number, a
    string, [null] or absent. *)
Theorem alt_POST_success_body (call : FetchCall) (r : UpstreamResponse) :
  snd (RouteAlt.POST env fetch request) = [call] ->
  fetch call = Resolved r -> ok r = true ->
  let upstreamJson := default (JObj []) (json r) in
  res_body (fst (RouteAlt.POST env fetch request)) =
    JObj [(lit "client_secret",
           RouteAlt.string_or_null (get upstreamJson (lit "client_secret")));
          (lit "expires_after",
           JSON_stringify
             (RouteAlt.number_or_string_or_null
                (get upstreamJson (lit "expires_after"))))] /\
  (res_body (fst (RouteAlt.POST env fetch request)) =
     res_body (fst (POST env fetch request)) <->
   match JSON_stringify (upstream_field r (lit "client_secret")) with
   | JStr _ | JNull => True
   | _ => False
   end /\
   match upstream_field r (lit "expires_after") with
   | JNum _ | JStr _ | JNull => True
   | _ => False
   end).
Proof.
  intros Hcall Hfetch Hok.
  destruct (alt_POST_called call Hcall) as (sessionCookie & ->).
  assert (Hcall' : snd (POST env fetch request) = [call])
    by (by rewrite <- alt_POST_calls).
  destruct (POST_called env fetch request call Hcall')
    as (key & userId & sessionCookie' & _ & _ & _ & _ & ->).
  rewrite Hfetch. cbv zeta. rewrite Hok.
  cbn [res_body json_built JSON_stringify map fst snd].
  rewrite string_or_null_written.
  split; [done|].
  unfold upstream_field.
  generalize (lit "client_secret") (lit "expires_after"). intros k1 k2.
  destruct (json r) as [j|]; cbn.
  - destruct (get j k1) as [[| |[[]| | |]| | |]|],
      (get j k2) as [[| |[[]| | |]| | |]|]; cbn;
      (split; [intros Heq; simplify_eq; by repeat split
              |intros [Hsecret Hexpires]; done]).
  - done.
Qed.

(** X8.  On a non-ok upstream answer whose status the [Response]
    constructor accepts, [route.ts] returns the upstream body, as
    [JSON.stringify] writes it, under [details] next to its message, while
    the copy in [part_000] returns its message alone: there the upstream
    body is not forwarded.  Each message is what the copy's own
    [extractUpstreamError] finds, or else
    [Failed to create session: <status> <statusText>].  When the
    constructor refuses the status, both return the generic body. *)
Theorem POST_error_bodies (call : FetchCall) (r : UpstreamResponse) :
  snd (POST env fetch request) = [call] ->
  fetch call = Resolved r -> ok r = false ->
  let upstreamJson := default (JObj []) (json r) in
  let fallback :=
    lit "Failed to create session: " ++ decimal (status r) ++ lit " " ++
    statusText r in
  (accepts_status (status r) = true ->
     res_body (fst (POST env fetch request)) =
       JObj [(lit "error",
              JStr (default fallback
                      (extractUpstreamError (Some upstreamJson))));
             (lit "details", JSON_stringify upstreamJson)] /\
     res_body (fst (RouteAlt.POST env fetch request)) =
       JObj [(lit "error",
              JStr (default fallback
                      (RouteAlt.extractUpstreamError (Some upstreamJson))))]) /\
  (accepts_status (status r) = false ->
     res_body (fst (POST env fetch request)) = unexpected_payload /\
     res_body (fst (RouteAlt.POST env fetch request)) = unexpected_payload).
Proof.
  intros Hcall Hfetch Hok.
  assert (Hcall' : snd (RouteAlt.POST env fetch request) = [call])
    by (by rewrite alt_POST_calls).
  destruct (alt_POST_called call Hcall') as (sessionCookie & ->).
  destruct (POST_called env fetch request call Hcall)
    as (key & userId & sessionCookie' & _ & _ & _ & _ & ->).
  rewrite Hfetch. cbv zeta. rewrite Hok.
  by split; intros ->.
Qed.

End CopyOfPost.

Section CopyOfPostExamples.
Import Route Examples.

Lemma alt_POST_success_body_witness :
  res_body (fst (RouteAlt.POST env (answers session_with_odd_types)
                               first_visit)) =
    JObj [(lit "client_secret", JNull); (lit "expires_after", JNull)] /\
  res_body (fst (RouteAlt.POST env (answers session_created) first_visit)) =
    res_body (fst (POST env (answers session_created) first_visit)).
Proof.
  destruct (alt_POST_success_body env (answers session_with_odd_types)
              first_visit first_visit_call session_with_odd_types)
    as [Hodd _]; [reflexivity | reflexivity | reflexivity |].
  destruct (alt_POST_success_body env (answers session_created)
              first_visit first_visit_call session_created)
    as [_ Hsame]; [reflexivity | reflexivity | reflexivity |].
  split; [exact Hodd|]. apply Hsame. vm_compute. split; exact I.
Defined.

(** Upstream answers 429 with a string [error] next to a string
    [message]: the two copies pass on different messages. *)
Lemma POST_error_bodies_witness :
  res_body (fst (POST env (answers quota_exceeded) first_visit)) =
    JObj [(lit "error", JStr (lit "quota exceeded"));
          (lit "details",
           JObj [(lit "error", JStr (lit "quota exceeded"));
                 (lit "message", JStr (lit "see details"))])] /\
  res_body (fst (RouteAlt.POST env (answers quota_exceeded) first_visit)) =
    JObj [(lit "error", JStr (lit "see details"))].
Proof.
  apply (POST_error_bodies env (answers quota_exceeded) first_visit
           first_visit_call quota_exceeded); reflexivity.
Defined.

End CopyOfPostExamples.

(** ** More on the panel *)

Section ErrorDetail.
Import Panel.

Lemma extractErrorDetail_shapes (payload : value) (fallback : jstring) :
  extractErrorDetail (Some payload) fallback =
    default fallback (Route.first_string (Route.error_shapes payload)).
Proof.
  unfold extractErrorDetail, Route.error_shapes.
  destruct payload as [|b|x|s|items|props]; try reflexivity.
  - by destruct b.
  - by destruct x.
  - by destruct s.
  - unfold isRecord, get_opt, get, as_string, truthy.
    cbn [negb mbind option_bind Route.first_string].
    payload_cases; reflexivity.
Qed.

(** X9.  The panel's [extractErrorDetail] looks for the message in the same
    six places, in the same order, as the route's [extractUpstreamError],
    and returns its fallback exactly where that returns [null]; so from an
    error response of the route, whose body is [{error, details}], it
    takes the route's [error] string, whatever [details] holds. *)
Theorem extractErrorDetail_as_route :
  (forall (payload : option value) (fallback : jstring),
     extractErrorDetail payload fallback =
       default fallback (Route.extractUpstreamError payload)) /\
  (forall (message : jstring) (details : value) (fallback : jstring),
     extractErrorDetail
       (Some (JObj [(lit "error", JStr message); (lit "details", details)]))
       fallback = message).
Proof.
  split.
  - intros [payload|] fallback; [|reflexivity].
    by rewrite extractErrorDetail_shapes, extractUpstreamError_shapes.
  - intros message details fallback. reflexivity.
Qed.

End ErrorDetail.

(** *** Running a computation step by step *)

Section Steps.
Import Panel.

Context {A B : Type}.
Implicit Types (w : World).

Lemma wp_ret (a : A) (Q : World -> Exn + A -> Prop) w :
  Q w (inr a) -> wp (ret a) Q w.
Proof. done. Qed.

Lemma wp_throw (e : Exn) (Q : World -> Exn + A -> Prop) w :
  Q w (inl e) -> wp (throw e) Q w.
Proof. done. Qed.

Lemma wp_bind (m : M A) (k : A -> M B) (Q : World -> Exn + B -> Prop) w :
  wp m (fun w' r => match r with
                    | inl e => Q w' (inl e)
                    | inr a => wp (k a) Q w'
                    end) w ->
  wp (bind m k) Q w.
Proof. unfold wp, bind. by destruct (m w) as [w' [e|a]]. Qed.

Lemma wp_try_catch (body : M A) (handler : Exn -> M A)
    (Q : World -> Exn + A -> Prop) w :
  wp body (fun w' r => match r with
                       | inl e => wp (handler e) Q w'
                       | inr a => Q w' (inr a)
                       end) w ->
  wp (try_catch body handler) Q w.
Proof. unfold wp, try_catch. by destruct (body w) as [w' [e|a]]. Qed.

Lemma wp_try_finally (body : M A) (final : M unit)
    (Q : World -> Exn + A -> Prop) w :
  wp body (fun w' r =>
             wp final (fun w'' r' => match r' with
                                     | inl e => Q w'' (inl e)
                                     | inr _ => Q w'' r
                                     end) w') w ->
  wp (try_finally body final) Q w.
Proof.
  unfold wp, try_finally. destruct (body w) as [w' r]. simpl.
  by destruct (final w') as [w'' [e|[]]].
Qed.

Lemma wp_await (unmounts : bool) (settled : Exn + A)
    (Q : World -> Exn + A -> Prop) w :
  Q (awaited unmounts w) settled -> wp (await unmounts settled) Q w.
Proof. unfold wp, await, awaited. by destruct unmounts, settled. Qed.

End Steps.

Section StepsUnit.
Import Panel.

Lemma wp_isMounted (Q : World -> Exn + bool -> Prop) w :
  Q w (inr (isMountedRef (panel w))) -> wp isMounted Q w.
Proof. done. Qed.

Lemma wp_with_panel f ev (Q : World -> Exn + unit -> Prop) w :
  Q {| panel := f (panel w); trace := trace w ++ ev |} (inr tt) ->
  wp (with_panel f ev) Q w.
Proof. done. Qed.

Lemma wp_setErrorState updates (Q : World -> Exn + unit -> Prop) w :
  Q (fst (setErrorState updates w)) (inr tt) -> wp (setErrorState updates) Q w.
Proof. done. Qed.

Lemma wp_setIsInitializingSession b (Q : World -> Exn + unit -> Prop) w :
  Q (fst (setIsInitializingSession b w)) (inr tt) ->
  wp (setIsInitializingSession b) Q w.
Proof. done. Qed.

Lemma wp_setScriptStatus s (Q : World -> Exn + unit -> Prop) w :
  Q (fst (setScriptStatus s w)) (inr tt) -> wp (setScriptStatus s) Q w.
Proof. done. Qed.

Lemma wp_unmount (Q : World -> Exn + unit -> Prop) w :
  Q (fst (unmount w)) (inr tt) -> wp unmount Q w.
Proof. done. Qed.

Lemma wp_when (c : bool) (m : M unit) (Q : World -> Exn + unit -> Prop) w :
  (if c then wp m Q w else Q w (inr tt)) -> wp (when c m) Q w.
Proof. by destruct c. Qed.

End StepsUnit.

(** The projections of the worlds the setters leave. *)
Ltac wp_simpl :=
  cbv beta iota;
  cbn [Panel.panel Panel.trace Panel.isMountedRef Panel.errors
       Panel.isInitializingSession Panel.processedFacts Panel.scriptStatus
       Panel.widgetInstanceKey Panel.awaited Panel.setErrorState
       Panel.setIsInitializingSession Panel.setScriptStatus Panel.unmount
       Panel.with_panel fst snd negb andb] in *.

(** What is known of [isMountedRef.current], or else both cases. *)
Ltac wp_mounted :=
  repeat match goal with
         | H : Panel.isMountedRef (Panel.panel ?w) = _
           |- context [Panel.isMountedRef (Panel.panel ?w)] => rewrite H
         | |- context [Panel.isMountedRef (Panel.panel ?w)] =>
             is_var w; destruct (Panel.isMountedRef (Panel.panel w)) eqn:?
         end.

(** One step of a computation at the head of the goal. *)
Ltac wp_step :=
  lazymatch goal with
  | |- Panel.wp (mbind _ _) _ _ => apply wp_bind
  | |- Panel.wp (Panel.bind _ _) _ _ => apply wp_bind
  | |- Panel.wp (Panel.ret _) _ _ => apply wp_ret
  | |- Panel.wp (Panel.throw _) _ _ => apply wp_throw
  | |- Panel.wp (Panel.try_catch _ _) _ _ => apply wp_try_catch
  | |- Panel.wp (Panel.try_finally _ _) _ _ => apply wp_try_finally
  | |- Panel.wp (Panel.await ?u _) _ _ =>
      apply wp_await; destruct u eqn:?
  | |- Panel.wp Panel.isMounted _ _ => apply wp_isMounted; wp_simpl; wp_mounted
  | |- Panel.wp (Panel.when _ _) _ _ => apply wp_when
  | |- Panel.wp (Panel.setErrorState _) _ _ => apply wp_setErrorState
  | |- Panel.wp (Panel.setIsInitializingSession _) _ _ =>
      apply wp_setIsInitializingSession
  | |- Panel.wp (Panel.setScriptStatus _) _ _ => apply wp_setScriptStatus
  | |- Panel.wp Panel.unmount _ _ => apply wp_unmount
  | |- Panel.wp (if ?c then _ else _) _ _ => destruct c eqn:?
  | |- Panel.wp (match ?x with _ => _ end) _ _ => destruct x eqn:?
  | |- Panel.wp (let _ := _ in _) _ _ => cbv zeta
  | |- if ?c then _ else _ => destruct c eqn:?
  | |- match ?x with inl _ => _ | inr _ => _ end => destruct x eqn:?
  end;
  wp_simpl.

Ltac wp_run := repeat wp_step.

Section SessionOutcome.
Import Panel.

(** X10.  [getClientSecret] never touches the script error, the processed
    facts, the script status or the widget key: whatever happens to the
    session request, they are after the call what they were before. *)
Theorem getClientSecret_frame (env : Surroundings)
    (currentSecret : option jstring) (w : World) :
  let w' := fst (getClientSecret env currentSecret w) in
  script (errors (panel w')) = script (errors (panel w)) /\
  processedFacts (panel w') = processedFacts (panel w) /\
  scriptStatus (panel w') = scriptStatus (panel w) /\
  widgetInstanceKey (panel w') = widgetInstanceKey (panel w).
Proof.
  change (wp (getClientSecret env currentSecret)
            (fun w' _ =>
               script (errors (panel w')) = script (errors (panel w)) /\
               processedFacts (panel w') = processedFacts (panel w) /\
               scriptStatus (panel w') = scriptStatus (panel w) /\
               widgetInstanceKey (panel w') = widgetInstanceKey (panel w)) w).
  unfold getClientSecret. destruct (opt_truthy currentSecret) eqn:Hsecret.
  all: wp_run; done.
Qed.

Lemma get_opt_Some (v : value) (k : jstring) : get_opt (Some v) k = get v k.
Proof. by destruct v. Qed.

Lemma as_string_Some (v : option value) (s : jstring) :
  as_string v = Some s -> v = Some (JStr s).
Proof. destruct v as [[]|]; simpl; congruence. Qed.

Lemma length_zero_truthy (s : jstring) :
  (length s =? 0)%nat = negb (str_truthy s).
Proof. by destruct s. Qed.

(** X11.  How a call of [getClientSecret] ends depends only on the
    configuration and on how [fetch] and [response.text()] settle, not on
    the state of the component, its unmounting or the current secret: it
    resolves with [client_secret] when the workflow is configured, the
    response is ok and its JSON has a non-empty string [client_secret], and
    otherwise rejects, always with an [Error], whose message is the
    configuration hint, the message of the rejection, the detail of the
    error response (its status text when the body names none), or
    [Missing client secret in response]. *)
Theorem getClientSecret_outcome (env : Surroundings)
    (currentSecret : option jstring) (w : World) :
  snd (getClientSecret env currentSecret w) =
    match session_outcome env with
    | inl message => inl (Error message)
    | inr secret => inr secret
    end.
Proof.
  change (wp (getClientSecret env currentSecret)
            (fun _ r => r = match session_outcome env with
                            | inl message => inl (Error message)
                            | inr secret => inr secret
                            end) w).
  unfold getClientSecret, session_outcome.
  destruct (opt_truthy currentSecret) eqn:Hsecret.
  all: wp_run.
  all: unfold response_data in *.
  all: rewrite ?get_opt_Some in *.
  all: repeat match goal with
              | H : as_string _ = Some _ |- _ => apply as_string_Some in H
              | H : (length _ =? 0)%nat = _ |- _ =>
                  rewrite length_zero_truthy in H
              | H : negb _ = true |- _ => apply negb_true_iff in H
              | H : negb _ = false |- _ => apply negb_false_iff in H
              end.
  all: repeat match goal with
              | H : ?x = _ |- context [?x] => rewrite H
              end; cbn [negb].
  all: try reflexivity.
  all: try (by destruct e).
  all: match goal with
       | H : as_string ?x = None |- _ =>
           destruct x as [[]|]; simpl in H; try discriminate; reflexivity
       end.
Qed.

(** X12.  After a call of [getClientSecret] that ends with the component
    still mounted, the error state tells how the call ended: [retryable] is
    false, the session error is the message of the [Error] the call
    rejected with, and it is [null], as is the integration error, when the
    call resolved. *)
Theorem getClientSecret_error_state (env : Surroundings)
    (currentSecret : option jstring) (w : World) :
  let w' := fst (getClientSecret env currentSecret w) in
  isMountedRef (panel w') = true ->
  retryable (errors (panel w')) = false /\
  match snd (getClientSecret env currentSecret w) with
  | inl (Error message) => session (errors (panel w')) = Some message
  | inl NotAnError => False
  | inr _ =>
      session (errors (panel w')) = None /\
      integration (errors (panel w')) = None
  end.
Proof.
  change (wp (getClientSecret env currentSecret)
            (fun w' r =>
               isMountedRef (panel w') = true ->
               retryable (errors (panel w')) = false /\
               match r with
               | inl (Error message) =>
                   session (errors (panel w')) = Some message
               | inl NotAnError => False
               | inr _ =>
                   session (errors (panel w')) = None /\
                   integration (errors (panel w')) = None
               end) w).
  unfold getClientSecret. destruct (opt_truthy currentSecret) eqn:Hsecret.
  all: wp_run.
  all: intros Hend; try discriminate; try congruence.
  all: try (by destruct e).
  all: by repeat split.
Qed.

(** X13.  A first call of [getClientSecret] (no current secret) that ends
    with the component still mounted leaves [isInitializingSession] false,
    however it ends; a refresh (a current secret) with the workflow
    configured never changes [isInitializingSession]. *)
Theorem getClientSecret_initializing (env : Surroundings)
    (currentSecret : option jstring) (w : World) :
  let w' := fst (getClientSecret env currentSecret w) in
  (opt_truthy currentSecret = false -> isMountedRef (panel w') = true ->
     isInitializingSession (panel w') = false) /\
  (opt_truthy currentSecret = true -> isWorkflowConfigured env = true ->
     isInitializingSession (panel w') = isInitializingSession (panel w)).
Proof.
  change (wp (getClientSecret env currentSecret)
            (fun w' _ =>
               (opt_truthy currentSecret = false ->
                isMountedRef (panel w') = true ->
                isInitializingSession (panel w') = false) /\
               (opt_truthy currentSecret = true ->
                isWorkflowConfigured env = true ->
                isInitializingSession (panel w') =
                  isInitializingSession (panel w))) w).
  unfold getClientSecret. destruct (opt_truthy currentSecret) eqn:Hsecret.
  all: wp_run.
  all: split; intros; try done; try congruence.
  all: match goal with
       | H : negb (isWorkflowConfigured _) = true |- _ =>
           apply negb_true_iff in H; congruence
       end.
Qed.

End SessionOutcome.

Section SessionOutcomeExamples.
Import Panel Examples.

(** The endpoint answers 500 with nothing to read: the call rejects, the
    component is still mounted, and the session error is the fallback
    message. *)
Lemma getClientSecret_error_state_witness :
  isMountedRef
    (panel (fst (getClientSecret endpoint_fails_silently None initial_world)))
    = true /\
  retryable
    (errors
       (panel (fst (getClientSecret endpoint_fails_silently None initial_world))))
    = false.
Proof.
  split; [reflexivity|].
  apply (getClientSecret_error_state endpoint_fails_silently None
           initial_world).
  reflexivity.
Defined.

(** A first call that fails ends the initialisation; a refresh leaves the
    flag as it was. *)
Lemma getClientSecret_initializing_witness :
  isInitializingSession
    (panel (fst (getClientSecret endpoint_fails_silently None initial_world)))
    = false /\
  isInitializingSession
    (panel (fst (getClientSecret endpoint_fails_silently
                   (Some (lit "cs_1")) initial_world)))
    = isInitializingSession (panel initial_world).
Proof.
  split.
  - apply (getClientSecret_initializing endpoint_fails_silently None
             initial_world); reflexivity.
  - apply (getClientSecret_initializing endpoint_fails_silently
             (Some (lit "cs_1")) initial_world); reflexivity.
Defined.

End SessionOutcomeExamples.

(** ** The panel over time *)

Section PanelOverTime.
Import Panel.

Lemma wp_run_state {A} (m : M A) (P : State -> Prop) (st : State) :
  wp m (fun w' _ => P (panel w')) {| panel := st; trace := [] |} ->
  P (run m st).
Proof. done. Qed.

Ltac handler_run :=
  apply wp_run_state;
  unfold scriptEffect, scriptTimeout, workflowEffect, onResponseStart,
    getClientSecret;
  unfold handleLoaded, handleError;
  wp_run.

Lemma act_error_invariant (a : Action) (st : State) :
  error_invariant st -> error_invariant (act a st).
Proof.
  intros (Hretry & Hintegration & Hscript).
  destruct a as [has| | |has|env|env currentSecret| | |invocation|has|];
    cbn [act].
  all: try (handler_run; unfold error_invariant; cbn; by auto).
  all: unfold error_invariant; cbn; by auto.
Qed.

Lemma after_error_invariant (actions : list Action) (st : State) :
  error_invariant st -> error_invariant (after actions st).
Proof.
  revert st. induction actions as [|a actions IH]; intros st Hst; [done|].
  apply IH. by apply act_error_invariant.
Qed.

(** X14.  Whatever happens to the panel after its first render (effects,
    script events and timers, session requests, widget callbacks, resets,
    the unmount, in any order and number), [errors.retryable] is false and
    [errors.integration] is [null]: no handler ever sets them otherwise.
    So the error shown is the script error or the session error, and the
    overlay is never given a retry action: [Restart chat] is not
    offered. *)
Theorem panel_never_offers_retry (has : bool) (actions : list Action) :
  let st := after actions (initial has) in
  retryable (errors st) = false /\
  integration (errors st) = None /\
  blockingError (errors st) = or_else (script (errors st)) (session (errors st)) /\
  onRetry (overlay (render st)) = false.
Proof.
  destruct (after_error_invariant actions (initial has))
    as (Hretry & Hintegration & _).
  { unfold error_invariant. cbn. auto. }
  cbv zeta. split; [done|]. split; [done|]. split.
  - unfold blockingError, activeError. rewrite Hintegration.
    by destruct (session _).
  - cbn. rewrite Hretry. apply andb_false_r.
Qed.

Lemma act_unmounted (a : Action) (st : State) :
  isMountedRef st = false ->
  isMountedRef (act a st) = false /\
  (guarded_action a = true -> act a st = st).
Proof.
  destruct st as [facts errs initializing mounted status key].
  cbn [isMountedRef]. intros ->.
  destruct a as [has| | |has|env|env currentSecret| | |invocation|has|];
    cbn [act guarded_action].
  all: try (split; [|discriminate]).
  all: try (by cbn).
  all: match goal with
       | |- _ (run _ ?st) = _ /\ _ =>
           apply (wp_run_state _
                    (fun st' => isMountedRef st' = false /\
                                (true = true -> st' = st)))
       end;
    unfold scriptEffect, scriptTimeout, workflowEffect, getClientSecret;
    unfold handleLoaded, handleError.
  all: wp_run.
  all: try done.
  all: match goal with
       | H : _ && false = true |- _ => by rewrite andb_false_r in H
       end.
Qed.

(** X15.  The unmount is final, and it freezes every guarded handler: once
    [isMountedRef.current] is false no action sets it back, and the script
    listeners, the script effect and its timer, the workflow effect and
    [getClientSecret], run in any order and number, leave the whole state
    of the panel (errors, flags, script status, widget key, processed
    facts) as it was. *)
Theorem unmount_is_final (actions : list Action) (st : State) :
  isMountedRef st = false ->
  isMountedRef (after actions st) = false /\
  (forallb guarded_action actions = true -> after actions st = st).
Proof.
  revert st. induction actions as [|a actions IH]; intros st Hmounted.
  { by split. }
  destruct (act_unmounted a st Hmounted) as [Hstill Hfrozen].
  destruct (IH _ Hstill) as [Hfinal Hrest].
  split; [exact Hfinal|].
  cbn [forallb]. intros [Ha Hactions]%andb_true_iff.
  change (after (a :: actions) st) with (after actions (act a st)).
  rewrite (Hrest Hactions). by apply Hfrozen.
Qed.

(** X16.  A script failure takes precedence, and stays until the script
    is found loaded: after [chatkit-script-error] reaches a mounted panel,
    the widget is hidden and the overlay is given the script failure
    message, whatever session error there was.  The re-run of the script
    effect that the change of [scriptStatus] brings about leaves that as it
    is when the web component is not registered, and so do the script
    timer, further error events, session requests, the workflow effect,
    response starts, thread changes, tool calls and the unmount.  When the
    effect re-runs with the web component registered, or the loaded event
    arrives, on a panel still mounted, [handleLoaded] clears the failure:
    the script error is [null] and the status [ready]. *)
Theorem script_failure_stays (st : State) (actions : list Action) :
  isMountedRef st = true ->
  Forall (fun a => clears_script_error a = false) actions ->
  let st' := after actions (act ScriptError st) in
  (error_prop (overlay (render st')) = Some SCRIPT_FAILED /\
   hidden (render st') = true /\
   scriptStatus st' = error) /\
  (isMountedRef st' = true ->
   forall a, a = ScriptEffect true \/ a = ScriptLoaded ->
     script (errors (act a st')) = None /\
     scriptStatus (act a st') = ready).
Proof.
  intros Hmounted Hactions.
  assert (Hfailed : script (errors (act ScriptError st)) = Some SCRIPT_FAILED /\
                    scriptStatus (act ScriptError st) = error).
  { cbn [act].
    apply (wp_run_state _
             (fun st' => script (errors st') = Some SCRIPT_FAILED /\
                         scriptStatus st' = error)).
    unfold handleError. wp_run; [|done].
    match goal with
    | H : negb (isMountedRef st) = true |- _ => by rewrite Hmounted in H
    end. }
  cbv zeta. split.
  - cut (script (errors (after actions (act ScriptError st))) =
           Some SCRIPT_FAILED /\
         scriptStatus (after actions (act ScriptError st)) = error).
    { intros [Hscript Hstatus]. split; [|split; [|done]].
      - unfold render. cbn [overlay error_prop]. unfold blockingError.
        by rewrite Hscript.
      - unfold hidden, render. cbn [chatkit_className]. unfold blockingError.
        rewrite Hscript. reflexivity. }
    revert Hfailed. generalize (act ScriptError st). clear st Hmounted.
    induction Hactions as [|a actions Ha _ IH]; intros st [Hscript Hstatus];
      [done|].
    change (after (a :: actions) st) with (after actions (act a st)).
    apply IH.
    destruct a as [[]| | |has|env|env currentSecret| | |invocation|has|];
      try discriminate Ha; cbn [act]; try done.
    all: apply (wp_run_state _
                  (fun st' => script (errors st') = Some SCRIPT_FAILED /\
                              scriptStatus st' = error));
      unfold scriptEffect, scriptTimeout, workflowEffect, getClientSecret;
      unfold handleError.
    all: try destruct (opt_truthy currentSecret) eqn:Hsecret.
    all: wp_run; done.
  - intros Hstill a Ha.
    assert (Hloaded : script (errors (run handleLoaded
                                        (after actions (act ScriptError st))))
                        = None /\
                      scriptStatus (run handleLoaded
                                      (after actions (act ScriptError st)))
                        = ready).
    { apply (wp_run_state _
               (fun st' => script (errors st') = None /\
                           scriptStatus st' = ready)).
      unfold handleLoaded. wp_run; [|done].
      match goal with
      | H : negb (isMountedRef _) = true |- _ => by rewrite Hstill in H
      end. }
    by destruct Ha as [-> | ->].
Qed.

End PanelOverTime.

Section PanelOverTimeExamples.
Import Panel Examples.

(** The unmounted panel after the script loads, a session request and the
    script timer: as it was. *)
Lemma unmount_is_final_witness :
  after [ScriptLoaded; GetClientSecret unmounts_in_flight None; ScriptTimeout false]
    (panel unmounted_world) = panel unmounted_world.
Proof.
  apply (unmount_is_final
           [ScriptLoaded; GetClientSecret unmounts_in_flight None;
            ScriptTimeout false] (panel unmounted_world));
    reflexivity.
Defined.

(** The script fails on a panel with a session error; the effect re-runs
    without the web component and a session request fails too: the overlay
    shows the script failure.  Then the effect re-runs with the web
    component registered, and the failure is gone. *)
Lemma script_failure_stays_witness :
  error_prop
    (overlay
       (render
          (after [ScriptEffect false;
                  GetClientSecret endpoint_fails_silently None;
                  OnResponseStart]
             (act ScriptError failed_state))))
    = Some SCRIPT_FAILED /\
  script
    (errors
       (act (ScriptEffect true)
          (after [ScriptEffect false;
                  GetClientSecret endpoint_fails_silently None;
                  OnResponseStart]
             (act ScriptError failed_state))))
    = None.
Proof.
  destruct (script_failure_stays failed_state
              [ScriptEffect false;
               GetClientSecret endpoint_fails_silently None;
               OnResponseStart]) as [[Hshown _] Hcleared];
    [reflexivity | repeat constructor |].
  split; [exact Hshown|].
  apply Hcleared; [reflexivity | by left].
Defined.

End PanelOverTimeExamples.

(** ** The recorded text and the processed facts *)

Section Normalisation.
Import Panel.

Implicit Types (s text : jstring) (c : N) (b : bool).

Lemma single_spaces_replace_ws b text :
  single_spaces b (replace_ws b text) = true.
Proof.
  revert b. induction text as [|c text IH]; intros b; simpl; [done|].
  destruct (is_whitespace c) eqn:Hc.
  - destruct b; simpl; [apply IH|]. apply IH.
  - simpl. rewrite Hc. apply IH.
Qed.

Lemma replace_ws_single_spaces b s :
  single_spaces b s = true -> replace_ws b s = s.
Proof.
  revert b. induction s as [|c s IH]; intros b; simpl; [done|].
  destruct (is_whitespace c) eqn:Hc.
  - intros [[Hb Hspace%N.eqb_eq]%andb_true_iff Hrest]%andb_true_iff.
    destruct b; [done|]. by rewrite (IH true Hrest), Hspace.
  - intros Hrest. by rewrite (IH false Hrest).
Qed.

Lemma single_spaces_weaken b s :
  single_spaces b s = true -> single_spaces false s = true.
Proof.
  destruct s as [|c s]; simpl; [done|].
  destruct (is_whitespace c); [|done]. by destruct b.
Qed.

Lemma single_spaces_trimStart b s :
  single_spaces b s = true -> single_spaces false (trimStart s) = true.
Proof.
  revert b. induction s as [|c s IH]; intros b; [done|].
  simpl. destruct (is_whitespace c) eqn:Hc.
  - intros [_ Hrest]%andb_true_iff. by apply (IH true).
  - intros Hrest. simpl. by rewrite Hc.
Qed.

Lemma single_spaces_trimEnd b s :
  single_spaces b s = true -> single_spaces b (trimEnd s) = true.
Proof.
  revert b. induction s as [|c s IH]; intros b; [done|].
  rewrite trimEnd_cons. destruct (forallb is_whitespace (c :: s)); [done|].
  simpl. destruct (is_whitespace c).
  - intros [Hhead Hrest]%andb_true_iff. by rewrite Hhead, (IH true Hrest).
  - apply IH.
Qed.

Lemma trimStart_fixed s :
  match s with [] => True | c :: _ => is_whitespace c = false end ->
  trimStart s = s.
Proof. destruct s as [|c s]; simpl; [done|]. by intros ->. Qed.

Lemma trimEnd_head s :
  match s with [] => True | c :: _ => is_whitespace c = false end ->
  match trimEnd s with [] => True | c :: _ => is_whitespace c = false end.
Proof.
  destruct s as [|c s]; [done|]. intros Hc. rewrite trimEnd_cons. simpl.
  by rewrite Hc.
Qed.

Lemma trim_trim s : trim (trim s) = trim s.
Proof.
  unfold trim.
  rewrite (trimStart_fixed (trimEnd (trimStart s)))
    by apply trimEnd_head, trimStart_head.
  unfold trimEnd. rewrite rev_involutive.
  by rewrite (trimStart_fixed (trimStart _)) by apply trimStart_head.
Qed.

Lemma visible_replace_ws b text : visible (replace_ws b text) = visible text.
Proof.
  unfold visible.
  revert b. induction text as [|c text IH]; intros b; simpl; [done|].
  destruct (is_whitespace c) eqn:Hc; simpl.
  - destruct b; simpl; apply IH.
  - rewrite Hc. simpl. by rewrite IH.
Qed.

Lemma visible_trimStart s : visible (trimStart s) = visible s.
Proof.
  unfold visible.
  induction s as [|c s IH]; simpl; [done|].
  destruct (is_whitespace c) eqn:Hc; simpl; [exact IH|]. by rewrite Hc.
Qed.

Lemma visible_rev s : visible (rev s) = rev (visible s).
Proof.
  unfold visible.
  induction s as [|c s IH]; simpl; [done|].
  rewrite List.filter_app, IH. simpl.
  destruct (negb (is_whitespace c)); simpl; [done|]. apply app_nil_r.
Qed.

Lemma visible_trim s : visible (trim s) = visible s.
Proof.
  unfold trim, trimEnd.
  by rewrite visible_rev, visible_trimStart, visible_rev, rev_involutive,
    visible_trimStart.
Qed.

(** X17.  The text [record_fact] hands over, [text.replace(/\s+/g, " ")
    .trim()], is in normal form: collapsing its white space again, trimming
    it again, or both, gives the same text; its only white space is single
    spaces; and it has the characters of [text] other than white space, all
    of them and in the same order. *)
Theorem normalize_normal_form text :
  replace_whitespace_runs (normalize text) = normalize text /\
  trim (normalize text) = normalize text /\
  normalize (normalize text) = normalize text /\
  single_spaces false (normalize text) = true /\
  visible (normalize text) = visible text.
Proof.
  assert (Hspaces : single_spaces false (normalize text) = true).
  { unfold normalize, trim, replace_whitespace_runs.
    apply single_spaces_trimEnd, (single_spaces_trimStart false),
      single_spaces_replace_ws. }
  assert (Hreplace : replace_whitespace_runs (normalize text) = normalize text).
  { by apply replace_ws_single_spaces. }
  assert (Htrim : trim (normalize text) = normalize text).
  { unfold normalize. apply trim_trim. }
  split; [done|]. split; [done|]. split; [|split; [done|]].
  - unfold normalize at 1. by rewrite Hreplace.
  - unfold normalize, replace_whitespace_runs.
    by rewrite visible_trim, visible_replace_ws.
Qed.

End Normalisation.

Section ProcessedFacts.
Import Panel.

Lemma onClientTool_at_most_one (facts : gset jstring)
    (inv : ClientToolInvocation) :
  (length (snd (fst (onClientTool facts inv))) <= 1)%nat.
Proof.
  unfold onClientTool.
  repeat match goal with
         | |- context [if ?c then _ else _] => destruct c
         end; simpl; lia.
Qed.

Lemma run_tools_account (invocations : list ClientToolInvocation) :
  forall facts : gset jstring,
    fst (run_tools facts invocations) =
      facts ∪ list_to_set (saved_ids (snd (run_tools facts invocations))) /\
    (length (snd (run_tools facts invocations)) <= length invocations)%nat.
Proof.
  induction invocations as [|inv rest IH]; intros facts; simpl.
  { split; [|done]. by rewrite union_empty_r_L. }
  pose proof (onClientTool_step facts inv) as Hstep.
  pose proof (onClientTool_at_most_one facts inv) as Hone.
  destruct (onClientTool facts inv) as [[facts1 effects1] result].
  destruct (IH facts1) as [IHfacts IHlength].
  destruct (run_tools facts1 rest) as [facts2 effects2]. simpl in *.
  split; [|rewrite length_app; lia].
  unfold saved_ids in *. rewrite omap_app, list_to_set_app_L, IHfacts.
  destruct Hstep as [[-> ->]|(id & -> & _ & _ & ->)]; simpl.
  - by rewrite union_empty_l_L.
  - rewrite union_empty_r_L.
    by rewrite (union_comm_L {[id]} facts), (assoc_L (∪)).
Qed.

Lemma onClientTool_seen (f g : gset jstring) (inv : ClientToolInvocation) :
  fst (fst (onClientTool f inv)) ⊆ g ->
  fst (fst (onClientTool g inv)) = g /\
  saved_ids (snd (fst (onClientTool g inv))) = [].
Proof.
  unfold onClientTool.
  destruct (str_eqb (name inv) (lit "switch_theme")).
  { intros _. repeat case_bool_decide; done. }
  destruct (str_eqb (name inv) (lit "record_fact")); [|done].
  set (id := default [] (getStringParam (params inv) (lit "fact_id"))).
  destruct (str_truthy id); simpl; [|done].
  intros Hsub.
  assert (Hin : id ∈ g).
  { destruct (bool_decide (id ∈ f)) eqn:Hf; simpl in Hsub.
    - apply bool_decide_eq_true in Hf. by apply Hsub.
    - apply Hsub, elem_of_union_l, elem_of_singleton. reflexivity. }
  by rewrite (bool_decide_eq_true_2 _ Hin).
Qed.

Lemma run_tools_seen (invocations : list ClientToolInvocation) :
  forall f g : gset jstring,
    fst (run_tools f invocations) ⊆ g ->
    fst (run_tools g invocations) = g /\
    saved_ids (snd (run_tools g invocations)) = [].
Proof.
  induction invocations as [|inv rest IH]; intros f g; simpl; [done|].
  pose proof (onClientTool_seen f g inv) as Hseen.
  destruct (onClientTool f inv) as [[f1 e1] r1].
  pose proof (run_tools_account rest f1) as [Haccount _].
  specialize (IH f1 g).
  destruct (run_tools f1 rest) as [f2 e2]. simpl in *.
  intros Hsub.
  destruct Hseen as [Hg He].
  { intros x Hx. apply Hsub. rewrite Haccount. by apply elem_of_union_l. }
  destruct (onClientTool g inv) as [[g1 e1'] r1']. simpl in *. subst g1.
  destruct (IH Hsub) as [IHg IHe].
  destruct (run_tools g rest) as [g2 e2']. simpl in *.
  split; [done|]. unfold saved_ids in *. by rewrite omap_app, He, IHe.
Qed.

(** X18.  Over any run of client-tool invocations the processed-facts set
    and the [onWidgetAction] calls stay in step: the set afterwards is the
    set before with exactly the saved fact ids added, nothing is ever
    removed from it, and each invocation makes at most one callback
    call. *)
Theorem processed_facts_account (facts : gset jstring)
    (invocations : list ClientToolInvocation) :
  fst (run_tools facts invocations) =
    facts ∪ list_to_set (saved_ids (snd (run_tools facts invocations))) /\
  facts ⊆ fst (run_tools facts invocations) /\
  (length (snd (run_tools facts invocations)) <= length invocations)%nat.
Proof.
  destruct (run_tools_account invocations facts) as [Haccount Hlength].
  split; [done|]. split; [|done].
  rewrite Haccount. intros x Hx. by apply elem_of_union_l.
Qed.

(** X19.  Replaying a run of invocations saves nothing: on the set the run
    left behind, the same invocations invoke [onWidgetAction] for no fact
    and leave the set as it is. *)
Theorem replay_saves_nothing (facts : gset jstring)
    (invocations : list ClientToolInvocation) :
  let facts' := fst (run_tools facts invocations) in
  fst (run_tools facts' invocations) = facts' /\
  saved_ids (snd (run_tools facts' invocations)) = [].
Proof. cbv zeta. by apply (run_tools_seen invocations facts). Qed.

End ProcessedFacts.
